(** * Sidetree Bitcoin blockchain service: transaction store and
      synchronisation engine

    A shallow embedding of [src/TransactionStore.ts] (the in-memory
    transaction store) and of [BlockchainService] (the polling engine with
    its fork resolution), followed by the properties of the specification
    that were checked against it.

    Conventions.
    - A JavaScript [number] holding a transaction number, a time or an array
      index is an integer of [Z]; indices may become negative, exactly as in
      the source ([length - 1] on an empty array, [index -= distance]).
    - An array is a [list]; [push] appends at the end, [splice(k)] keeps the
      first [k] elements.
    - [undefined] is [None].
    - A [throw] is the [Thrown] outcome of the engine monad. *)

From Stdlib Require Import ZArith String List Bool Lia Arith.
Import ListNotations.
Open Scope Z_scope.

Set Implicit Arguments.

(** ** Transactions *)

(** [Transaction.ts] is imported by the store; only its fields are used. *)
Record Transaction : Type := mkTransaction {
  transactionNumber : Z;
  transactionTime : Z;
  transactionTimeHash : string;
  anchorFileHash : string
}.

(** What the code can throw. *)
Inductive Exception : Type :=
| UnableToLocateTransaction (n : Z)   (* Error(`Unable to locate transction: ${n}`) *)
| TypeError                           (* property access on [undefined] *)
| Rejected (reason : string).         (* a rejected upstream promise *)

(** A line written to the console; the variable parts of the source's
    template strings are the constructor arguments. *)
Inductive Message : Type :=
| Text (s : string)
| Reverting (count : Z)
| Fetched (count : nat) (first : Z)
| BestKnownValid (n : Z)
| Waiting (seconds : Z)
| Caught (e : Exception).

(** ** SortedArray *)

Module SortedArray.

Section BinarySearch.
Context {T1 T2 : Type}.
Variable sortedArray : list T1.
Variable searchItem : T2.
Variable compare : T1 -> T2 -> Z.

(** Modelled from the spec: [lib/SortedArray.ts] is imported by the store
  but is not among the sources.  The spec asks for a binary search over
  the strictly increasing sequence of transaction numbers; the call site
  fixes the interface (array, searched item, three-way comparison giving
  a number; result an index or [undefined]).  The search keeps an
  inclusive window [lower..upper], probes its middle, and moves the
  window to the side the comparison points to.  The outer [None] means
  that [fuel] ran out. *)
Fixpoint search (fuel : nat) (lower upper : Z) : option (option Z) :=
if lower <=? upper then
  match fuel with
  | O => None
  | S fuel' =>
      let middle := (lower + upper) / 2 in
      match nth_error sortedArray (Z.to_nat middle) with
      | None => None
      | Some item =>
          let comparisonResult := compare item searchItem in
          if comparisonResult >? 0 then search fuel' lower (middle - 1)
          else if comparisonResult <? 0 then search fuel' (middle + 1) upper
          else Some (Some middle)
      end
  end
else Some None.

(** Modelled from the spec: the entry point of the binary search, on the
  whole array.  The window has [length] elements and loses at least one
  per probe, so [length] probes are enough ([binarySearch_total] below). *)
Definition binarySearch : option Z :=
match search (length sortedArray) 0 (Z.of_nat (length sortedArray) - 1) with
| Some r => r
| None => None
end.
End BinarySearch.

End SortedArray.

(** ** InMemoryTransactionStore

    The store's only field is [transactions]; each method is a function of
    that array, returning the new array where the method mutates it. *)

Definition getLastTransaction (transactions : list Transaction) : option Transaction :=
  if (Z.of_nat (length transactions) =? 0) then None
  else
    let lastTransactionIndex := Z.of_nat (length transactions) - 1 in
    nth_error transactions (Z.to_nat lastTransactionIndex).

Definition addTransaction (transaction : Transaction) (transactions : list Transaction)
  : list Transaction :=
  match getLastTransaction transactions with
  | Some lastTransaction =>
      if transactionNumber lastTransaction >=? transactionNumber transaction
      then transactions
      else transactions ++ [transaction]
  | None => transactions ++ [transaction]
  end.

(** The [while (index >= 0)] loop of [getExponentiallySpacedTransactions].
    [None] means that [fuel] ran out (or that the index left the array,
    which cannot happen: see [spaced_loop_total]). *)
Fixpoint spaced_loop (transactions : list Transaction) (fuel : nat)
    (index distance : Z) (exponentiallySpacedTransactions : list Transaction)
  : option (list Transaction) :=
  if index >=? 0 then
    match fuel with
    | O => None
    | S fuel' =>
        match nth_error transactions (Z.to_nat index) with
        | None => None
        | Some t =>
            spaced_loop transactions fuel' (index - distance) (distance * 2)
              (exponentiallySpacedTransactions ++ [t])
        end
    end
  else Some exponentiallySpacedTransactions.

Definition getExponentiallySpacedTransactions (transactions : list Transaction)
  : list Transaction :=
  match spaced_loop transactions (length transactions)
          (Z.of_nat (length transactions) - 1) 1 [] with
  | Some l => l
  | None => []
  end.

Definition compareTransactionAndTransactionNumber
    (transaction : Transaction) (transactionNumber' : Z) : Z :=
  transactionNumber transaction - transactionNumber'.

(** [removeTransactionsLaterThan]: the lines printed and the new array, or
    the exception thrown (the array is then untouched). *)
Definition removeTransactionsLaterThan (transactionNumber' : option Z)
    (transactions : list Transaction)
  : Exception + (list Message * list Transaction) :=
  match transactionNumber' with
  | None => inr ([], [])
  | Some n =>
      match SortedArray.binarySearch transactions n
              compareTransactionAndTransactionNumber with
      | None => inl (UnableToLocateTransaction n)
      | Some bestKnownValidRecentTransactionIndex =>
          inr ([Reverting (Z.of_nat (length transactions)
                           - bestKnownValidRecentTransactionIndex - 1)],
               firstn (Z.to_nat (bestKnownValidRecentTransactionIndex + 1))
                 transactions)
      end
  end.

(** ** Upstream contract

    [RequestHandler.ts] and [Response.ts] are imported by the service and are
    external collaborators: the handler is taken as a parameter of the
    engine below.  A response has a [status] and an optional [body]; the
    source reads the body through [as any], so its shape is the one the
    contract gives for each request. *)

Inductive ResponseStatus : Type := BadRequest | NotFound | ServerError | Succeeded.

Record Response (B : Type) : Type := mkResponse {
  status : ResponseStatus;
  body : option B
}.

(** The body of a fetch response: the page of transactions of a success, or
    the error code of a failure. *)
Inductive FetchBody : Type :=
| TransactionsBody (transactions : list Transaction) (moreTransactions : bool)
| CodeBody (code : string).

Definition isSucceeded (s : ResponseStatus) : bool :=
  match s with Succeeded => true | _ => false end.

Definition isBadRequest (s : ResponseStatus) : bool :=
  match s with BadRequest => true | _ => false end.

Definition invalid_transaction_number_or_time_hash : string :=
  "invalid_transaction_number_or_time_hash"%string.

(** ** Console and upstream events *)

Inductive Event : Type :=
| FetchRequest (afterNumber : option Z) (afterTimeHash : option string)
    (result : Exception + Response FetchBody)
| FirstValidRequest (transactions : list Transaction)
    (result : Exception + Response Transaction)
| ConsoleInfo (m : Message)
| ConsoleError (m : Message)
| SetImmediate
| SetTimeout (milliseconds : Z).

Definition isFetch (e : Event) : bool :=
  match e with FetchRequest _ _ _ => true | _ => false end.

Definition isFirstValid (e : Event) : bool :=
  match e with FirstValidRequest _ _ => true | _ => false end.

Definition isConsoleError (e : Event) : bool :=
  match e with ConsoleError _ => true | _ => false end.

(** The requests sent upstream, in order, among the events of a run. *)
Definition upstreamCalls (events : list Event) : list Event :=
  filter (fun e => isFetch e || isFirstValid e) events.

(** The reorg signal: [BadRequest] with the code
    ['invalid_transaction_number_or_time_hash']. *)
Definition isReorgSignal (r : Response FetchBody) : bool :=
  match status r, body r with
  | BadRequest, Some (CodeBody code) =>
      String.eqb code invalid_transaction_number_or_time_hash
  | _, _ => false
  end.

Definition isReorgFetch (e : Event) : bool :=
  match e with
  | FetchRequest _ _ (inr r) => isReorgSignal r
  | _ => false
  end.

(** How a computation of the engine ends. *)
Inductive Outcome (A : Type) : Type :=
| Returned (a : A)
| Thrown (e : Exception)
| OutOfFuel.

Arguments Thrown {A} e.
Arguments OutOfFuel {A}.

(** ** BlockchainService *)

Section BlockchainService.

(** The state of the upstream ledger, as seen through the request
    handler, and the handler's two requests. *)
Variable Upstream : Type.
Variable handleFetchRequest :
  option Z -> option string -> Upstream ->
  (Exception + Response FetchBody) * Upstream.
Variable handleFirstValidRequest :
  list Transaction -> Upstream ->
  (Exception + Response Transaction) * Upstream.

Record BlockchainService : Type := mkService {
  requestHandler : Upstream;
  continuePeriodicProcessing : bool;
  transactionStore : list Transaction;
  lastKnownTransaction : option Transaction;
  pollingIntervalInSeconds : Z
}.

(** A computation of the engine: from a state, an outcome, the new state,
    and the events emitted in between, oldest first. *)
Definition M (A : Type) : Type :=
  BlockchainService -> Outcome A * BlockchainService * list Event.

Definition ret {A} (a : A) : M A := fun s => (Returned a, s, []).

Definition bind {A B} (m : M A) (k : A -> M B) : M B := fun s =>
  match m s with
  | (Returned a, s1, t1) =>
      match k a s1 with (o, s2, t2) => (o, s2, t1 ++ t2) end
  | (Thrown e, s1, t1) => (Thrown e, s1, t1)
  | (OutOfFuel, s1, t1) => (OutOfFuel, s1, t1)
  end.

Definition throw {A} (e : Exception) : M A := fun s => (Thrown e, s, []).
Definition outOfFuel {A} : M A := fun s => (OutOfFuel, s, []).
Definition emit (e : Event) : M unit := fun s => (Returned tt, s, [e]).
Definition get : M BlockchainService := fun s => (Returned s, s, []).
Definition put (s : BlockchainService) : M unit := fun _ => (Returned tt, s, []).

Definition consoleInfo (m : Message) : M unit := emit (ConsoleInfo m).
Definition consoleError (m : Message) : M unit := emit (ConsoleError m).

(** [try m catch (error) handler finally final]. *)
Definition tryCatchFinally (m : M unit) (handler : Exception -> M unit)
    (final : M unit) : M unit := fun s =>
  match m s with
  | (Returned _, s1, t1) =>
      match final s1 with (o, s2, t2) => (o, s2, t1 ++ t2) end
  | (Thrown e, s1, t1) =>
      match bind (handler e) (fun _ => final) s1 with
      | (o, s2, t2) => (o, s2, t1 ++ t2)
      end
  | (OutOfFuel, s1, t1) => (OutOfFuel, s1, t1)
  end.

Notation "x <- m ;; k" := (bind m (fun x => k))
  (at level 61, m at next level, right associativity).
Notation "m ;; k" := (bind m (fun _ => k))
  (at level 61, right associativity).

Definition setTransactionStore (transactions : list Transaction) : M unit :=
  s <- get ;;
  put (mkService (requestHandler s) (continuePeriodicProcessing s)
         transactions (lastKnownTransaction s) (pollingIntervalInSeconds s)).

Definition setLastKnownTransaction (t : option Transaction) : M unit :=
  s <- get ;;
  put (mkService (requestHandler s) (continuePeriodicProcessing s)
         (transactionStore s) t (pollingIntervalInSeconds s)).

Definition setContinuePeriodicProcessing (b : bool) : M unit :=
  s <- get ;;
  put (mkService (requestHandler s) b
         (transactionStore s) (lastKnownTransaction s) (pollingIntervalInSeconds s)).

Definition setRequestHandler (u : Upstream) : M unit :=
  s <- get ;;
  put (mkService u (continuePeriodicProcessing s)
         (transactionStore s) (lastKnownTransaction s) (pollingIntervalInSeconds s)).

(** [await this.requestHandler.handleFetchRequest(number, timeHash)]. *)
Definition fetchRequest (number : option Z) (timeHash : option string)
  : M (Response FetchBody) :=
  s <- get ;;
  match handleFetchRequest number timeHash (requestHandler s) with
  | (result, u) =>
      setRequestHandler u ;;
      emit (FetchRequest number timeHash result) ;;
      match result with
      | inl error => throw error
      | inr response => ret response
      end
  end.

(** [await this.requestHandler.handleFirstValidRequest(...)]. *)
Definition firstValidRequest (transactionList : list Transaction)
  : M (Response Transaction) :=
  s <- get ;;
  match handleFirstValidRequest transactionList (requestHandler s) with
  | (result, u) =>
      setRequestHandler u ;;
      emit (FirstValidRequest transactionList result) ;;
      match result with
      | inl error => throw error
      | inr response => ret response
      end
  end.

Fixpoint forEach {A} (l : list A) (f : A -> M unit) : M unit :=
  match l with
  | [] => ret tt
  | x :: l' => f x ;; forEach l' f
  end.

(** [await this.transactionStore.removeTransactionsLaterThan(n)]. *)
Definition storeRemoveTransactionsLaterThan (n : option Z) : M unit :=
  s <- get ;;
  match removeTransactionsLaterThan n (transactionStore s) with
  | inl error => throw error
  | inr (printed, transactions) =>
      forEach printed consoleInfo ;;
      setTransactionStore transactions
  end.

(** [await this.transactionStore.addTransaction(transaction)]. *)
Definition storeAddTransaction (transaction : Transaction) : M unit :=
  s <- get ;;
  setTransactionStore (addTransaction transaction (transactionStore s)).

(** [private async RevertInvalidTransactions ()]. *)
Definition RevertInvalidTransactions : M unit :=
  s <- get ;;
  let exponentiallySpacedTransactions :=
    getExponentiallySpacedTransactions (transactionStore s) in
  let transactionList :=
    map (fun transaction =>
           mkTransaction (transactionNumber transaction)
             (transactionTime transaction)
             (transactionTimeHash transaction)
             (anchorFileHash transaction))
        exponentiallySpacedTransactions in
  bestKnownValidRecentTransaction <- firstValidRequest transactionList ;;
  if isSucceeded (status bestKnownValidRecentTransaction) then
    match body bestKnownValidRecentTransaction with
    | None => throw TypeError
    | Some bestKnownValidRecentTransactionBody =>
        let bestKnownValidRecentTransactionNumber :=
          transactionNumber bestKnownValidRecentTransactionBody in
        consoleInfo (BestKnownValid bestKnownValidRecentTransactionNumber) ;;
        storeRemoveTransactionsLaterThan
          (Some bestKnownValidRecentTransactionNumber) ;;
        setLastKnownTransaction (Some bestKnownValidRecentTransactionBody)
    end
  else ret tt.

(** One append of the ingestion loop:
    [addTransaction(transaction)], then [lastKnownTransaction] is read
    back from the store. *)
Definition ingest (transaction : Transaction) : M unit :=
  storeAddTransaction transaction ;;
  s <- get ;;
  setLastKnownTransaction (getLastTransaction (transactionStore s)).

(** The body of the [do ... while (moreTransactions)] loop of
    [processTransactions], from the values of the two loop variables to
    their new values. *)
Definition fetchAndProcess (blockReorganizationDetected moreTransactions : bool)
  : M (bool * bool) :=
  s <- get ;;
  let lastKnownTransactionNumber :=
    match lastKnownTransaction s with
    | Some t => Some (transactionNumber t)
    | None => None
    end in
  let lastKnownTransactionTimeHash :=
    match lastKnownTransaction s with
    | Some t => Some (transactionTimeHash t)
    | None => None
    end in
  consoleInfo (Text "Fetching Sidetree transactions from blockchain service...") ;;
  readResult <- fetchRequest lastKnownTransactionNumber lastKnownTransactionTimeHash ;;
  vars <-
    (if isSucceeded (status readResult) then
       match body readResult with
       | Some (TransactionsBody transactions moreTransactions') =>
           match transactions with
           | [] => ret tt
           | first :: _ =>
               consoleInfo (Fetched (length transactions) (transactionNumber first))
           end ;;
           forEach transactions ingest ;;
           ret (blockReorganizationDetected, moreTransactions')
       | _ => throw TypeError
       end
     else if isBadRequest (status readResult) then
       match body readResult with
       | None => throw TypeError
       | Some (CodeBody code) =>
           if String.eqb code invalid_transaction_number_or_time_hash
           then ret (true, moreTransactions)
           else ret (blockReorganizationDetected, moreTransactions)
       | Some _ => ret (blockReorganizationDetected, moreTransactions)
       end
     else ret (blockReorganizationDetected, moreTransactions)) ;;
  (if fst vars then
     consoleInfo (Text "Block reorganization detected.") ;;
     consoleInfo (Text "Reverting invalid transactions...") ;;
     RevertInvalidTransactions ;;
     consoleInfo (Text "Completed reverting invalid transactions.")
   else ret tt) ;;
  ret vars.

(** The [do ... while] loop; [fuel] bounds the number of iterations. *)
Fixpoint doWhile (fuel : nat) (blockReorganizationDetected moreTransactions : bool)
  : M unit :=
  match fuel with
  | O => outOfFuel
  | S fuel' =>
      vars <- fetchAndProcess blockReorganizationDetected moreTransactions ;;
      if snd vars then doWhile fuel' (fst vars) (snd vars) else ret tt
  end.

(** [public async processTransactions ()]: one processing cycle. *)
Definition processTransactions (fuel : nat) : M unit :=
  let blockReorganizationDetected := false in
  tryCatchFinally
    (let moreTransactions := false in
     doWhile fuel blockReorganizationDetected moreTransactions)
    (fun error =>
       consoleError (Text "Encountered unhandled and possibly fatal error, must investigate and fix:") ;;
       consoleError (Caught error))
    (s <- get ;;
     if continuePeriodicProcessing s then
       consoleInfo (Waiting (pollingIntervalInSeconds s)) ;;
       emit (SetTimeout (pollingIntervalInSeconds s * 1000))
     else ret tt).

(** [public async startPeriodicProcessing ()]; the callback handed to
    [setImmediate] is [immediateCallback]. *)
Definition startPeriodicProcessing : M unit :=
  s <- get ;;
  setLastKnownTransaction (getLastTransaction (transactionStore s)) ;;
  consoleInfo (Text "Starting periodic transactions polling.") ;;
  emit SetImmediate.

Definition immediateCallback (fuel : nat) : M unit :=
  setContinuePeriodicProcessing true ;;
  processTransactions fuel.

Definition initialize : M unit := startPeriodicProcessing.

(** [public stopPeriodicProcessing ()]. *)
Definition stopPeriodicProcessing : M unit :=
  consoleInfo (Text "Stopped periodic transactions polling.") ;;
  setContinuePeriodicProcessing false.

End BlockchainService.

(** ** Vocabulary of the statements *)

Definition numbers (transactions : list Transaction) : list Z :=
  map transactionNumber transactions.

(** Each element is smaller than the next one; by transitivity, smaller than
    every later one ([strictlyIncreasing_nth]). *)
Fixpoint increasingb (l : list Z) : bool :=
  match l with
  | [] => true
  | x :: l' =>
      match l' with
      | [] => true
      | y :: _ => (x <? y) && increasingb l'
      end
  end.

Definition strictlyIncreasing (l : list Z) : Prop := increasingb l = true.

(** A call of one of the two mutating methods of the store. *)
Inductive StoreCall : Type :=
| CallAddTransaction (transaction : Transaction)
| CallRemoveTransactionsLaterThan (transactionNumber' : option Z).

(** The store after a call; a call that throws leaves it as it was. *)
Definition afterCall (transactions : list Transaction) (c : StoreCall)
  : list Transaction :=
  match c with
  | CallAddTransaction t => addTransaction t transactions
  | CallRemoveTransactionsLaterThan n =>
      match removeTransactionsLaterThan n transactions with
      | inr (_, transactions') => transactions'
      | inl _ => transactions
      end
  end.

(** The store after a sequence of calls on the empty store. *)
Definition afterCalls (cs : list StoreCall) : list Transaction :=
  fold_left afterCall cs [].

(** The array was built from the empty one by the store's two mutating
    methods, as the store's private field is. *)
Definition builtByCalls (transactions : list Transaction) : Prop :=
  exists cs, transactions = afterCalls cs.

(** The events from the first fetch answered with the reorg signal on. *)
Fixpoint sinceReorgSignal (events : list Event) : list Event :=
  match events with
  | [] => []
  | e :: rest => if isReorgFetch e then e :: rest else sinceReorgSignal rest
  end.

(** The upstream requests are fetch, first-valid, fetch, first-valid, ...:
    every fetch is followed by a first-valid request before the next fetch.
    With [strict] the sequence also ends with a first-valid request;
    without, it may end with a fetch whose round was cut short. *)
Fixpoint fetchThenFirstValid (strict : bool) (calls : list Event) : bool :=
  match calls with
  | [] => true
  | f :: rest =>
      isFetch f &&
      match rest with
      | [] => negb strict
      | v :: rest' => isFirstValid v && fetchThenFirstValid strict rest'
      end
  end.

Definition isReturned {A} (o : Outcome A) : bool :=
  match o with Returned _ => true | _ => false end.

(** ** Sample data *)

Definition sampleTransaction (n : Z) : Transaction :=
  mkTransaction n (1000 + n) "timeHash" "anchorFileHash".

Definition sampleLog : list Transaction :=
  map sampleTransaction [1; 2; 3; 4; 5].

(** An engine whose store holds [sampleLog], in step with its cache. *)
Definition sampleService {Upstream} (u : Upstream) : BlockchainService Upstream :=
  mkService u true sampleLog (Some (sampleTransaction 5)) 60.

Definition reorgSignal : Response FetchBody :=
  mkResponse BadRequest (Some (CodeBody invalid_transaction_number_or_time_hash)).

(** An upstream that answers every fetch with the reorg signal. *)
Definition fetchReorg {U} (n : option Z) (h : option string) (u : U)
  : (Exception + Response FetchBody) * U :=
  (inr reorgSignal, u).

(** An upstream whose fetch answers are scripted: its state is the list of
    the answers still to give; afterwards it has nothing new. *)
Definition fetchScripted (n : option Z) (h : option string)
    (u : list (Exception + Response FetchBody))
  : (Exception + Response FetchBody) * list (Exception + Response FetchBody) :=
  match u with
  | [] => (inr (mkResponse Succeeded (Some (TransactionsBody [] false))), [])
  | answer :: u' => (answer, u')
  end.

Definition page (numbers' : list Z) (moreTransactions : bool)
  : Exception + Response FetchBody :=
  inr (mkResponse Succeeded
         (Some (TransactionsBody (map sampleTransaction numbers') moreTransactions))).

(** A backlog page, then the reorg signal, then two more pages. *)
Definition sampleScript : list (Exception + Response FetchBody) :=
  [page [6; 7] true; inr reorgSignal; page [8] true; page [9] false].

(** An upstream that finds no valid checkpoint. *)
Definition firstValidNone {U} (l : list Transaction) (u : U)
  : (Exception + Response Transaction) * U :=
  (inr (mkResponse NotFound None), u).

(** An upstream for which transaction [n] is the best valid one; the time
    hash it reports is the ledger's own. *)
Definition firstValidIs {U} (n : Z) (l : list Transaction) (u : U)
  : (Exception + Response Transaction) * U :=
  (inr (mkResponse Succeeded
          (Some (mkTransaction n (1000 + n) "ledgerTimeHash" "anchorFileHash"))), u).

(** An upstream that answers with the second checkpoint it is sent. *)
Definition firstValidSecond {U} (l : list Transaction) (u : U)
  : (Exception + Response Transaction) * U :=
  (inr (mkResponse Succeeded (nth_error l 1)), u).

(** ** Vocabulary of the further properties *)

(** The store after [addTransaction] was called on each transaction of a
    page, in order, as the ingestion loop does. *)
Definition addTransactions (page : list Transaction)
    (transactions : list Transaction) : list Transaction :=
  fold_left (fun l t => addTransaction t l) page transactions.

Definition isSetTimeout (e : Event) : bool :=
  match e with SetTimeout _ => true | _ => false end.

(** The [(afterNumber, afterTimeHash)] pair a fetch is given for a value of
    [lastKnownTransaction]. *)
Definition referenceOf (lastKnown : option Transaction) : option Z * option string :=
  match lastKnown with
  | Some t => (Some (transactionNumber t), Some (transactionTimeHash t))
  | None => (None, None)
  end.

(** The reference of the first fetch among the events, if there is one. *)
Fixpoint firstFetchReference (events : list Event)
  : option (option Z * option string) :=
  match events with
  | [] => None
  | FetchRequest n h _ :: _ => Some (n, h)
  | _ :: rest => firstFetchReference rest
  end.

(** The events a round of the loop can emit: console lines at info level
    and upstream requests. *)
Definition isLoopEvent (e : Event) : bool :=
  match e with
  | ConsoleError _ | SetImmediate | SetTimeout _ => false
  | _ => true
  end.


(** An upstream whose fetch fails with a server error. *)
Definition fetchServerError {U} (n : option Z) (h : option string) (u : U)
  : (Exception + Response FetchBody) * U :=
  (inr (mkResponse ServerError None), u).

(** An upstream whose first-valid request is rejected. *)
Definition firstValidRejected {U} (l : list Transaction) (u : U)
  : (Exception + Response Transaction) * U :=
  (inl (Rejected "connection refused"), u).

(** ** The binary search *)

Module SortedArrayFacts.
Import SortedArray.

Section Facts.
Context {T1 T2 : Type}.
Variable sortedArray : list T1.
Variable searchItem : T2.
Variable compare : T1 -> T2 -> Z.

Lemma search_sound fuel : forall lower upper i,
0 <= lower ->
search sortedArray searchItem compare fuel lower upper = Some (Some i) ->
lower <= i <= upper /\
exists item, nth_error sortedArray (Z.to_nat i) = Some item /\
             compare item searchItem = 0.
Proof.
induction fuel as [|fuel IH]; intros lower upper i Hlo; simpl.
- destruct (lower <=? upper); discriminate.
- destruct (Z.leb_spec lower upper) as [Hle|Hgt]; [|discriminate].
  assert (Hmid : lower <= (lower + upper) / 2 <= upper).
  { split; [apply Z.div_le_lower_bound | apply Z.div_le_upper_bound]; lia. }
  destruct (nth_error sortedArray (Z.to_nat ((lower + upper) / 2)))
    as [item|] eqn:Hnth; [|discriminate].
  destruct (Z.gtb_spec (compare item searchItem) 0) as [Hgt|Hngt].
  + intros H. apply IH in H; [|assumption]. destruct H as [Hr Hex].
    split; [lia | exact Hex].
  + destruct (Z.ltb_spec (compare item searchItem) 0) as [Hlt|Hnlt].
    * intros H. apply IH in H; [|lia]. destruct H as [Hr Hex].
      split; [lia | exact Hex].
    * intros H. injection H as <-. split; [exact Hmid|].
      exists item. split; [exact Hnth | lia].
Qed.

Lemma search_total fuel : forall lower upper,
0 <= lower -> upper < Z.of_nat (length sortedArray) ->
upper - lower + 1 <= Z.of_nat fuel ->
search sortedArray searchItem compare fuel lower upper <> None.
Proof.
induction fuel as [|fuel IH]; intros lower upper Hlo Hup Hfuel; simpl.
- destruct (Z.leb_spec lower upper); [lia | discriminate].
- destruct (Z.leb_spec lower upper) as [Hle|Hgt]; [|discriminate].
  assert (Hmid : lower <= (lower + upper) / 2 <= upper).
  { split; [apply Z.div_le_lower_bound | apply Z.div_le_upper_bound]; lia. }
  destruct (nth_error sortedArray (Z.to_nat ((lower + upper) / 2)))
    as [item|] eqn:Hnth.
  + destruct (compare item searchItem >? 0); [apply IH; lia|].
    destruct (compare item searchItem <? 0); [apply IH; lia | discriminate].
  + apply nth_error_None in Hnth. lia.
Qed.

(** On an array along which the comparison with the searched item grows
  strictly, the search finds the position where it is zero. *)
Hypothesis compare_increasing : forall i j x y,
(i < j)%nat ->
nth_error sortedArray i = Some x -> nth_error sortedArray j = Some y ->
compare x searchItem < compare y searchItem.

Lemma search_complete fuel : forall lower upper k item,
0 <= lower -> upper < Z.of_nat (length sortedArray) ->
upper - lower + 1 <= Z.of_nat fuel ->
lower <= k <= upper ->
nth_error sortedArray (Z.to_nat k) = Some item ->
compare item searchItem = 0 ->
search sortedArray searchItem compare fuel lower upper = Some (Some k).
Proof.
induction fuel as [|fuel IH]; intros lower upper k item Hlo Hup Hfuel Hk Hnth Hz;
  simpl.
- lia.
- destruct (Z.leb_spec lower upper) as [Hle|Hgt]; [|lia].
  assert (Hmid : lower <= (lower + upper) / 2 <= upper).
  { split; [apply Z.div_le_lower_bound | apply Z.div_le_upper_bound]; lia. }
  set (middle := (lower + upper) / 2) in *.
  destruct (nth_error sortedArray (Z.to_nat middle)) as [probe|] eqn:Hp.
  2:{ apply nth_error_None in Hp. lia. }
  destruct (Z.gtb_spec (compare probe searchItem) 0) as [Hgt|Hngt].
  + apply IH with item; try lia; try assumption.
    destruct (Z.lt_trichotomy k middle) as [Hlt|[Heq|Hgt']]; [lia| |].
    * subst k. rewrite Hp in Hnth. injection Hnth as ->. lia.
    * assert (compare probe searchItem < compare item searchItem)
        by (apply compare_increasing with (Z.to_nat middle) (Z.to_nat k);
            [lia | assumption | assumption]).
      lia.
  + destruct (Z.ltb_spec (compare probe searchItem) 0) as [Hlt|Hnlt].
    * apply IH with item; try lia; try assumption.
      destruct (Z.lt_trichotomy k middle) as [Hlt'|[Heq|Hgt']]; [| |lia].
      -- assert (compare item searchItem < compare probe searchItem)
           by (apply compare_increasing with (Z.to_nat k) (Z.to_nat middle);
               [lia | assumption | assumption]).
         lia.
      -- subst k. rewrite Hp in Hnth. injection Hnth as ->. lia.
    * destruct (Z.lt_trichotomy k middle) as [Hlt'|[Heq|Hgt']].
      -- assert (compare item searchItem < compare probe searchItem)
           by (apply compare_increasing with (Z.to_nat k) (Z.to_nat middle);
               [lia | assumption | assumption]).
         lia.
      -- subst k. reflexivity.
      -- assert (compare probe searchItem < compare item searchItem)
           by (apply compare_increasing with (Z.to_nat middle) (Z.to_nat k);
               [lia | assumption | assumption]).
         lia.
Qed.
End Facts.

(** The fuel given by [binarySearch] is enough: its search ends. *)
Lemma binarySearch_total {T1 T2} (sortedArray : list T1) (searchItem : T2)
    (compare : T1 -> T2 -> Z) :
  search sortedArray searchItem compare (length sortedArray) 0
    (Z.of_nat (length sortedArray) - 1) <> None.
Proof. apply search_total; lia. Qed.

End SortedArrayFacts.

(** ** Strictly increasing lists *)

Lemma increasingb_cons x l :
  increasingb (x :: l) = true <->
  (forall y, In y l -> x < y) /\ increasingb l = true.
Proof.
  revert x. induction l as [|y l IH]; intros x.
  - simpl. split; [intros _; split; [intros ? []|reflexivity] | reflexivity].
  - change (increasingb (x :: y :: l)) with ((x <? y) && increasingb (y :: l)).
    rewrite andb_true_iff, Z.ltb_lt. split.
    + intros [Hxy Hl]. split; [|exact Hl].
      intros z [<-|Hz]; [exact Hxy|].
      apply IH in Hl. destruct Hl as [Hy _]. specialize (Hy z Hz). lia.
    + intros [Hall Hl]. split; [apply Hall; left; reflexivity | exact Hl].
Qed.

Lemma increasingb_app l1 l2 :
  increasingb (l1 ++ l2) = true <->
  increasingb l1 = true /\ increasingb l2 = true /\
  (forall x y, In x l1 -> In y l2 -> x < y).
Proof.
  induction l1 as [|a l1 IH].
  - simpl. split; [intros H; repeat split; [exact H | intros ? ? []] | intros (_ & H & _); exact H].
  - rewrite <- app_comm_cons, !increasingb_cons, IH. split.
    + intros (Ha & H1 & H2 & H12). repeat split; try assumption.
      * intros y Hy. apply Ha, in_or_app. left; exact Hy.
      * intros x y [<-|Hx] Hy; [apply Ha, in_or_app; right; exact Hy | apply H12; assumption].
    + intros ((Ha & H1) & H2 & H12). repeat split; try assumption.
      * intros y Hy. apply in_app_or in Hy. destruct Hy as [Hy|Hy];
          [apply Ha; exact Hy | apply H12; [left; reflexivity | exact Hy]].
      * intros x y Hx Hy. apply H12; [right; exact Hx | exact Hy].
Qed.

Lemma strictlyIncreasing_nth l :
  strictlyIncreasing l ->
  forall i j x y, (i < j)%nat ->
    nth_error l i = Some x -> nth_error l j = Some y -> x < y.
Proof.
  unfold strictlyIncreasing. induction l as [|a l IH]; intros Hl i j x y Hij Hx Hy.
  - destruct i; discriminate.
  - apply increasingb_cons in Hl. destruct Hl as [Ha Hl].
    destruct j as [|j]; [lia|]. simpl in Hy.
    destruct i as [|i].
    + injection Hx as <-. apply Ha. eapply nth_error_In; exact Hy.
    + simpl in Hx. apply (IH Hl i j); [lia | assumption | assumption].
Qed.

Lemma nth_strictlyIncreasing l :
  (forall i j x y, (i < j)%nat ->
     nth_error l i = Some x -> nth_error l j = Some y -> x < y) ->
  strictlyIncreasing l.
Proof.
  unfold strictlyIncreasing. induction l as [|a l IH]; intros H; [reflexivity|].
  apply increasingb_cons. split.
  - intros y Hy. apply In_nth_error in Hy. destruct Hy as [j Hj].
    apply (H 0%nat (S j)); [lia | reflexivity | exact Hj].
  - apply IH. intros i j x y Hij Hx Hy. apply (H (S i) (S j)); [lia | exact Hx | exact Hy].
Qed.

Lemma strictlyIncreasing_firstn k l :
  strictlyIncreasing l -> strictlyIncreasing (firstn k l).
Proof.
  unfold strictlyIncreasing. intros H.
  rewrite <- (firstn_skipn k l) in H. apply increasingb_app in H. tauto.
Qed.

Lemma strictlyIncreasing_NoDup l : strictlyIncreasing l -> NoDup l.
Proof.
  unfold strictlyIncreasing. induction l as [|a l IH]; intros H; [constructor|].
  apply increasingb_cons in H. destruct H as [Ha Hl]. constructor; [|apply IH; exact Hl].
  intros Hin. specialize (Ha a Hin). lia.
Qed.

(** ** The store's methods *)

Lemma getLastTransaction_nil : getLastTransaction [] = None.
Proof. reflexivity. Qed.

Lemma getLastTransaction_snoc l t : getLastTransaction (l ++ [t]) = Some t.
Proof.
  unfold getLastTransaction. rewrite last_length.
  destruct (Z.eqb_spec (Z.of_nat (S (length l))) 0) as [H|_]; [lia|].
  replace (Z.to_nat (Z.of_nat (S (length l)) - 1)) with (length l) by lia.
  rewrite nth_error_app2 by lia. rewrite Nat.sub_diag. reflexivity.
Qed.

Lemma getLastTransaction_inv l :
  match getLastTransaction l with
  | None => l = []
  | Some t => exists l', l = l' ++ [t]
  end.
Proof.
  destruct l as [|a l] using rev_ind; [reflexivity|].
  rewrite getLastTransaction_snoc. exists l. reflexivity.
Qed.

(** After [addTransaction t] the newest stored number is at least [t]'s. *)
Lemma addTransaction_newest t transactions :
  exists newest, getLastTransaction (addTransaction t transactions) = Some newest /\
                 transactionNumber t <= transactionNumber newest.
Proof.
  unfold addTransaction.
  destruct (getLastTransaction transactions) as [l|] eqn:E.
  - destruct (Z.geb_spec (transactionNumber l) (transactionNumber t)).
    + exists l. split; [exact E | lia].
    + exists t. split; [apply getLastTransaction_snoc | lia].
  - exists t. split; [apply getLastTransaction_snoc | lia].
Qed.

Lemma addTransaction_increasing t transactions :
  strictlyIncreasing (numbers transactions) ->
  strictlyIncreasing (numbers (addTransaction t transactions)).
Proof.
  intros H. unfold addTransaction.
  pose proof (getLastTransaction_inv transactions) as Hinv.
  destruct (getLastTransaction transactions) as [l|].
  - destruct (Z.geb_spec (transactionNumber l) (transactionNumber t)) as [|Hlt];
      [exact H|].
    destruct Hinv as [l' ->]. unfold numbers, strictlyIncreasing in *.
    rewrite !map_app in *. simpl in *.
    apply increasingb_app in H. destruct H as (H1 & _ & H12).
    apply increasingb_app. split; [|split; [reflexivity|]].
    + apply increasingb_app. split; [exact H1 | split; [reflexivity | exact H12]].
    + intros x y Hx [<-|[]]. apply in_app_or in Hx. destruct Hx as [Hx|[<-|[]]]; [|lia].
      specialize (H12 x (transactionNumber l) Hx (or_introl eq_refl)). lia.
  - subst transactions. reflexivity.
Qed.

Section Removal.
Variable transactions : list Transaction.

Lemma locate_sound n i :
  SortedArray.binarySearch transactions n compareTransactionAndTransactionNumber
    = Some i ->
  0 <= i /\
  exists t, nth_error transactions (Z.to_nat i) = Some t /\ transactionNumber t = n.
Proof.
  unfold SortedArray.binarySearch.
  destruct (SortedArray.search _ _ _ _ _ _) as [[j|]|] eqn:E; try discriminate.
  intros H. injection H as ->.
  apply SortedArrayFacts.search_sound in E; [|lia].
  destruct E as [Hr (t & Ht & Hc)]. split; [lia|]. exists t. split; [exact Ht|].
  unfold compareTransactionAndTransactionNumber in Hc. lia.
Qed.

Lemma locate_complete n k t :
  strictlyIncreasing (numbers transactions) ->
  nth_error transactions k = Some t -> transactionNumber t = n ->
  SortedArray.binarySearch transactions n compareTransactionAndTransactionNumber
    = Some (Z.of_nat k).
Proof.
  intros Hinc Hk Hn. unfold SortedArray.binarySearch.
  assert (Hlen : (k < length transactions)%nat)
    by (apply nth_error_Some; rewrite Hk; discriminate).
  rewrite SortedArrayFacts.search_complete with (k := Z.of_nat k) (item := t);
    try lia; try reflexivity.
  - intros i j x y Hij Hx Hy. unfold compareTransactionAndTransactionNumber.
    assert (transactionNumber x < transactionNumber y); [|lia].
    apply (strictlyIncreasing_nth Hinc) with i j; [exact Hij | |];
      unfold numbers; rewrite nth_error_map; [rewrite Hx | rewrite Hy]; reflexivity.
  - rewrite Nat2Z.id. exact Hk.
  - unfold compareTransactionAndTransactionNumber. lia.
Qed.

(** Whatever its argument, the method leaves a prefix of the array. *)
Lemma removeTransactionsLaterThan_prefix n printed transactions' :
  removeTransactionsLaterThan n transactions = inr (printed, transactions') ->
  exists k, transactions' = firstn k transactions.
Proof.
  unfold removeTransactionsLaterThan. destruct n as [n|].
  - destruct (SortedArray.binarySearch _ _ _) as [i|]; [|discriminate].
    intros H. injection H as _ <-. eexists; reflexivity.
  - intros H. injection H as _ <-. exists 0%nat. reflexivity.
Qed.

(** On a strictly increasing array, the elements up to the position of
    number [n] are those with a number at most [n]. *)
Lemma firstn_filter n k t :
  strictlyIncreasing (numbers transactions) ->
  nth_error transactions k = Some t -> transactionNumber t = n ->
  firstn (S k) transactions
    = filter (fun t' => transactionNumber t' <=? n) transactions.
Proof.
  intros Hinc Hk Hn.
  assert (Hnum : forall i x, nth_error transactions i = Some x ->
                   nth_error (numbers transactions) i = Some (transactionNumber x))
    by (intros i x Hx; unfold numbers; rewrite nth_error_map, Hx; reflexivity).
  rewrite <- (firstn_skipn (S k) transactions) at 2. rewrite filter_app.
  rewrite forallb_filter_id.
  - replace (filter _ (skipn (S k) transactions)) with (@nil Transaction);
      [rewrite app_nil_r; reflexivity|].
    symmetry. rewrite <- (filter_false (skipn (S k) transactions)).
    apply filter_ext_in. intros x Hx.
    apply In_nth_error in Hx. destruct Hx as [i Hi]. rewrite nth_error_skipn in Hi.
    apply Z.leb_gt.
    pose proof (strictlyIncreasing_nth Hinc (i := k) (j := (S k + i)%nat)
                  ltac:(lia) (Hnum _ _ Hk) (Hnum _ _ Hi)). lia.
  - apply forallb_forall. intros x Hx.
    apply In_nth_error in Hx. destruct Hx as [i Hi]. rewrite nth_error_firstn in Hi.
    destruct (Nat.ltb_spec i (S k)) as [Hlt|]; [|discriminate].
    apply Z.leb_le. destruct (Nat.eq_dec i k) as [->|Hne].
    + rewrite Hk in Hi. injection Hi as <-. lia.
    + pose proof (strictlyIncreasing_nth Hinc (i := i) (j := k)
                    ltac:(lia) (Hnum _ _ Hi) (Hnum _ _ Hk)). lia.
Qed.
End Removal.

Lemma newest_is_maximum transactions :
  strictlyIncreasing (numbers transactions) ->
  match getLastTransaction transactions with
  | None => transactions = []
  | Some newest =>
      In newest transactions /\
      forall t, In t transactions -> transactionNumber t <= transactionNumber newest
  end.
Proof.
  intros Hinc. pose proof (getLastTransaction_inv transactions) as Hinv.
  destruct (getLastTransaction transactions) as [newest|]; [|exact Hinv].
  destruct Hinv as [l ->]. split; [apply in_or_app; right; left; reflexivity|].
  unfold numbers, strictlyIncreasing in Hinc. rewrite map_app in Hinc.
  apply increasingb_app in Hinc. destruct Hinc as (_ & _ & H).
  intros t Ht. apply in_app_or in Ht. destruct Ht as [Ht|[<-|[]]]; [|lia].
  specialize (H (transactionNumber t) (transactionNumber newest)
                (in_map _ _ _ Ht) (or_introl eq_refl)). lia.
Qed.

Lemma afterCall_increasing transactions c :
  strictlyIncreasing (numbers transactions) ->
  strictlyIncreasing (numbers (afterCall transactions c)).
Proof.
  intros H. destruct c as [t|n]; simpl.
  - apply addTransaction_increasing, H.
  - destruct (removeTransactionsLaterThan n transactions) as [e|[printed l]] eqn:E;
      [exact H|].
    apply removeTransactionsLaterThan_prefix in E. destruct E as [k ->].
    unfold numbers. rewrite <- firstn_map. apply strictlyIncreasing_firstn, H.
Qed.

Lemma afterCalls_increasing cs :
  strictlyIncreasing (numbers (afterCalls cs)).
Proof.
  unfold afterCalls.
  assert (G : forall l, strictlyIncreasing (numbers l) ->
                        strictlyIncreasing (numbers (fold_left afterCall cs l))).
  { induction cs as [|c cs IH]; intros l Hl; [exact Hl|].
    simpl. apply IH, afterCall_increasing, Hl. }
  apply G. reflexivity.
Qed.

Lemma firstn_S_snoc {A} (l : list A) : forall k x,
  nth_error l k = Some x -> firstn (S k) l = firstn k l ++ [x].
Proof.
  induction l as [|a l IH]; intros [|k] x H; try discriminate.
  - injection H as ->. reflexivity.
  - simpl in H. change (firstn (S (S k)) (a :: l)) with (a :: firstn (S k) l).
    rewrite (IH k x H). reflexivity.
Qed.

(** Truncating at the number of the transaction stored at position [k]. *)
Lemma removeTransactionsLaterThan_stored transactions k t :
  strictlyIncreasing (numbers transactions) ->
  nth_error transactions k = Some t ->
  removeTransactionsLaterThan (Some (transactionNumber t)) transactions
  = inr ([Reverting (Z.of_nat (length transactions) - Z.of_nat k - 1)],
         firstn (S k) transactions).
Proof.
  intros Hinc Hk. unfold removeTransactionsLaterThan.
  rewrite (@locate_complete transactions (transactionNumber t) k t Hinc Hk eq_refl).
  replace (Z.to_nat (Z.of_nat k + 1)) with (S k) by lia. reflexivity.
Qed.

(** ** Properties of the store *)

(** C1. On a log whose transaction numbers are strictly increasing, and for
    a number [n] carried by a stored transaction,
    [removeTransactionsLaterThan(n)] leaves exactly the stored transactions
    with [transactionNumber <= n], in their original order (the [filter] of
    the log); with [undefined] it leaves the empty log.  Neither call
    throws. *)
Theorem removeTransactionsLaterThan_retains :
  forall (transactions : list Transaction),
    (forall n : Z,
        strictlyIncreasing (numbers transactions) ->
        (exists t, In t transactions /\ transactionNumber t = n) ->
        exists printed,
          removeTransactionsLaterThan (Some n) transactions
          = inr (printed,
                 filter (fun t => transactionNumber t <=? n) transactions)) /\
    removeTransactionsLaterThan None transactions = inr ([], []).
Proof.
  intros transactions. split; [|reflexivity].
  intros n Hinc (t & Hin & Hn).
  apply In_nth_error in Hin. destruct Hin as [k Hk]. subst n.
  rewrite (removeTransactionsLaterThan_stored _ _ Hinc Hk).
  eexists. f_equal. f_equal. apply firstn_filter with t; [assumption | assumption | reflexivity].
Qed.

Lemma removeTransactionsLaterThan_retains_witness :
  exists printed,
    removeTransactionsLaterThan (Some 3) sampleLog
    = inr (printed, map sampleTransaction [1; 2; 3]).
Proof.
  destruct (removeTransactionsLaterThan_retains sampleLog) as [H _].
  apply (H 3).
  - reflexivity.
  - exists (sampleTransaction 3). split; [simpl; tauto | reflexivity].
Defined.

(** C2. [addTransaction] is idempotent against re-delivery: on a non-empty
    log whose newest transaction has a number at least the argument's, it
    leaves the log as it is; otherwise it appends the argument at the end.
    Hence adding the same transaction twice, or an older one after a newer
    one, leaves the log as after the first call. *)
Theorem addTransaction_idempotent :
  forall (transactions : list Transaction) (t : Transaction),
    (forall newest,
        transactions <> [] ->
        getLastTransaction transactions = Some newest ->
        transactionNumber newest >= transactionNumber t ->
        addTransaction t transactions = transactions) /\
    ((transactions = [] \/
      exists newest, getLastTransaction transactions = Some newest /\
                     transactionNumber newest < transactionNumber t) ->
     addTransaction t transactions = transactions ++ [t]) /\
    addTransaction t (addTransaction t transactions) = addTransaction t transactions /\
    (forall older,
        transactionNumber older <= transactionNumber t ->
        addTransaction older (addTransaction t transactions)
        = addTransaction t transactions).
Proof.
  intros transactions t.
  assert (Hold : forall older,
             transactionNumber older <= transactionNumber t ->
             addTransaction older (addTransaction t transactions)
             = addTransaction t transactions).
  { intros older Hle.
    destruct (addTransaction_newest t transactions) as (newest & Hn & Hge).
    unfold addTransaction at 1. rewrite Hn.
    destruct (Z.geb_spec (transactionNumber newest) (transactionNumber older));
      [reflexivity | lia]. }
  split; [|split; [|split]].
  - intros newest _ Hn Hge. unfold addTransaction. rewrite Hn.
    destruct (Z.geb_spec (transactionNumber newest) (transactionNumber t));
      [reflexivity | lia].
  - intros [->|(newest & Hn & Hlt)]; [reflexivity|].
    unfold addTransaction. rewrite Hn.
    destruct (Z.geb_spec (transactionNumber newest) (transactionNumber t));
      [lia | reflexivity].
  - apply Hold. lia.
  - exact Hold.
Qed.

Lemma addTransaction_idempotent_witness :
  addTransaction (sampleTransaction 4) sampleLog = sampleLog /\
  addTransaction (sampleTransaction 6) sampleLog = sampleLog ++ [sampleTransaction 6].
Proof.
  split.
  - destruct (addTransaction_idempotent sampleLog (sampleTransaction 4)) as [H _].
    apply (H (sampleTransaction 5)); [discriminate | reflexivity | simpl; lia].
  - destruct (addTransaction_idempotent sampleLog (sampleTransaction 6)) as (_ & H & _).
    apply H. right. exists (sampleTransaction 5). split; [reflexivity | simpl; lia].
Defined.

(** C7. For a defined number [n] that no stored transaction carries,
    [removeTransactionsLaterThan(n)] throws the error
    `Unable to locate transction: n` and does not truncate; so it does for
    every defined [n] on the empty log. *)
Theorem removeTransactionsLaterThan_unknown :
  forall (transactions : list Transaction) (n : Z),
    ((forall t, In t transactions -> transactionNumber t <> n) ->
     removeTransactionsLaterThan (Some n) transactions
     = inl (UnableToLocateTransaction n)) /\
    removeTransactionsLaterThan (Some n) [] = inl (UnableToLocateTransaction n).
Proof.
  intros transactions n. split; [|reflexivity].
  intros Hnone. unfold removeTransactionsLaterThan.
  destruct (SortedArray.binarySearch _ _ _) as [i|] eqn:E; [|reflexivity].
  apply locate_sound in E. destruct E as (_ & t & Ht & Hn).
  exfalso. apply (Hnone t); [eapply nth_error_In; exact Ht | exact Hn].
Qed.

Lemma removeTransactionsLaterThan_unknown_witness :
  removeTransactionsLaterThan (Some 7) sampleLog = inl (UnableToLocateTransaction 7).
Proof.
  destruct (removeTransactionsLaterThan_unknown sampleLog 7) as [H _].
  apply H. intros t Hin. simpl in Hin.
  repeat (destruct Hin as [<-|Hin]; [simpl; lia|]). destruct Hin.
Defined.

(** C8. Starting from the empty log, after any sequence of [addTransaction]
    and [removeTransactionsLaterThan] calls with arbitrary arguments, the
    stored transaction numbers are strictly increasing (so position order is
    numeric order) and have no duplicates, and [getLastTransaction] returns
    the stored transaction with the greatest number, or nothing on an empty
    log. *)
Theorem store_ordering_invariant :
  forall (cs : list StoreCall),
    strictlyIncreasing (numbers (afterCalls cs)) /\
    NoDup (numbers (afterCalls cs)) /\
    (forall i j ti tj,
        nth_error (afterCalls cs) i = Some ti ->
        nth_error (afterCalls cs) j = Some tj ->
        ((i < j)%nat <-> transactionNumber ti < transactionNumber tj)) /\
    match getLastTransaction (afterCalls cs) with
    | None => afterCalls cs = []
    | Some newest =>
        In newest (afterCalls cs) /\
        forall t, In t (afterCalls cs) ->
                  transactionNumber t <= transactionNumber newest
    end.
Proof.
  intros cs. pose proof (afterCalls_increasing cs) as Hinc.
  split; [exact Hinc|]. split; [apply strictlyIncreasing_NoDup, Hinc|].
  split; [|apply newest_is_maximum, Hinc].
  intros i j ti tj Hi Hj.
  assert (Hnum : forall k x, nth_error (afterCalls cs) k = Some x ->
                   nth_error (numbers (afterCalls cs)) k = Some (transactionNumber x))
    by (intros k x Hx; unfold numbers; rewrite nth_error_map, Hx; reflexivity).
  split.
  - intros Hij. exact (strictlyIncreasing_nth Hinc Hij (Hnum _ _ Hi) (Hnum _ _ Hj)).
  - intros Hlt. destruct (Nat.lt_trichotomy i j) as [H|[->|H]]; [exact H| |].
    + rewrite Hi in Hj. injection Hj as <-. lia.
    + pose proof (strictlyIncreasing_nth Hinc H (Hnum _ _ Hj) (Hnum _ _ Hi)). lia.
Qed.

(** ** Checkpoint sampling *)

Section Checkpoints.
Variable transactions : list Transaction.
Local Abbreviation n := (length transactions).

(** The loop at its [k]-th round: the index is [n - 2^k] and the stride
    [2^k]; it collects the transactions at [n - 2^j] for [j] from [k] to
    [log2 n]. *)
Lemma spaced_loop_rounds fuel : forall (k : nat) acc,
  (0 < n)%nat ->
  Z.of_nat n - 2 ^ Z.of_nat k + 1 <= Z.of_nat fuel ->
  exists picks,
    spaced_loop transactions fuel (Z.of_nat n - 2 ^ Z.of_nat k) (2 ^ Z.of_nat k) acc
    = Some (acc ++ picks) /\
    map Some picks
    = map (fun j => nth_error transactions (n - 2 ^ j))
          (seq k (S (Nat.log2 n) - k)).
Proof.
  induction fuel as [|fuel IH]; intros k acc Hn Hfuel.
  - cbn [spaced_loop]. destruct (Z.geb_spec (Z.of_nat n - 2 ^ Z.of_nat k) 0) as [Hge|Hlt]; [lia|].
    exists []. rewrite app_nil_r. split; [reflexivity|].
    assert (Hk : (Nat.log2 n < k)%nat).
    { apply Nat.nle_gt. intros Hle. apply Nat.log2_le_pow2 in Hle; [|exact Hn].
      apply Nat2Z.inj_le in Hle. rewrite Nat2Z.inj_pow in Hle. simpl in Hle. lia. }
    replace (S (Nat.log2 n) - k)%nat with 0%nat by lia. reflexivity.
  - cbn [spaced_loop]. destruct (Z.geb_spec (Z.of_nat n - 2 ^ Z.of_nat k) 0) as [Hge|Hlt].
    + assert (Hpow : (2 ^ k <= n)%nat).
      { apply Nat2Z.inj_le. rewrite Nat2Z.inj_pow. simpl. lia. }
      assert (Hpos : (0 < 2 ^ k)%nat) by (apply Nat.neq_0_lt_0, Nat.pow_nonzero; lia).
      assert (Hk : (k <= Nat.log2 n)%nat) by (apply Nat.log2_le_pow2; assumption).
      assert (Hidx : Z.to_nat (Z.of_nat n - 2 ^ Z.of_nat k) = (n - 2 ^ k)%nat).
      { rewrite <- (Nat2Z.id (n - 2 ^ k)). f_equal.
        rewrite Nat2Z.inj_sub by exact Hpow. rewrite Nat2Z.inj_pow. reflexivity. }
      rewrite Hidx.
      destruct (nth_error transactions (n - 2 ^ k)) as [t|] eqn:Ht.
      2:{ apply nth_error_None in Ht. lia. }
      assert (Hz : 0 < 2 ^ Z.of_nat k) by (apply Z.pow_pos_nonneg; lia).
      destruct (IH (S k) (acc ++ [t]) Hn) as (picks & Hloop & Hpicks).
      { rewrite Nat2Z.inj_succ, Z.pow_succ_r by lia. lia. }
      rewrite Nat2Z.inj_succ, Z.pow_succ_r in Hloop by lia.
      replace (Z.of_nat n - 2 ^ Z.of_nat k - 2 ^ Z.of_nat k)
        with (Z.of_nat n - 2 * 2 ^ Z.of_nat k) by lia.
      replace (2 ^ Z.of_nat k * 2) with (2 * 2 ^ Z.of_nat k) by lia.
      exists (t :: picks). split.
      * rewrite Hloop, <- app_assoc. reflexivity.
      * replace (S (Nat.log2 n) - k)%nat with (S (S (Nat.log2 n) - S k)) by lia.
        simpl seq. simpl map. rewrite Ht, Hpicks. reflexivity.
    + exists []. rewrite app_nil_r. split; [reflexivity|].
      assert (Hk : (Nat.log2 n < k)%nat).
      { apply Nat.nle_gt. intros Hle. apply Nat.log2_le_pow2 in Hle; [|exact Hn].
        apply Nat2Z.inj_le in Hle. rewrite Nat2Z.inj_pow in Hle. simpl in Hle. lia. }
      replace (S (Nat.log2 n) - k)%nat with 0%nat by lia. reflexivity.
Qed.

(** The fuel given by [getExponentiallySpacedTransactions] is enough: its
    loop ends. *)
Lemma spaced_loop_total :
  spaced_loop transactions n (Z.of_nat n - 1) 1 [] <> None.
Proof.
  destruct (Nat.eq_dec n 0) as [E|E].
  - rewrite E. simpl. discriminate.
  - destruct (@spaced_loop_rounds n 0%nat []) as (picks & H & _); [lia | simpl; lia|].
    simpl in H. rewrite H. discriminate.
Qed.

Lemma checkpoints_rounds :
  (0 < n)%nat ->
  map Some (getExponentiallySpacedTransactions transactions)
  = map (fun j => nth_error transactions (n - 2 ^ j)) (seq 0 (S (Nat.log2 n))).
Proof.
  intros Hn. unfold getExponentiallySpacedTransactions.
  destruct (@spaced_loop_rounds n 0%nat [] Hn) as (picks & H & Hp); [simpl; lia|].
  simpl (2 ^ Z.of_nat 0) in H. rewrite H. simpl app.
  rewrite Hp, Nat.sub_0_r. reflexivity.
Qed.
End Checkpoints.

(** Every checkpoint is a stored transaction. *)
Lemma checkpoints_stored transactions t :
  In t (getExponentiallySpacedTransactions transactions) -> In t transactions.
Proof.
  intros Hin. destruct transactions as [|a l]; [destruct Hin|].
  apply (in_map Some) in Hin.
  rewrite checkpoints_rounds in Hin by (simpl; lia).
  apply in_map_iff in Hin. destruct Hin as (j & Hj & _).
  eapply nth_error_In. exact Hj.
Qed.

(** C3, as the code has it.  For a log of size [n >= 1],
    [getExponentiallySpacedTransactions] returns exactly the transactions at
    the indices [n-1], [n-2], [n-4], ..., [n - 2^k], ... for [k] from [0] to
    the floor of [log2 n], newest first; the next stride would pass the
    start of the log.  The number of checkpoints is therefore
    [floor (log2 n) + 1].  On the empty log the result is empty. *)
Theorem checkpoints_exponentially_spaced :
  forall (transactions : list Transaction),
    let n := length transactions in
    ((1 <= n)%nat ->
     map Some (getExponentiallySpacedTransactions transactions)
     = map (fun k => nth_error transactions (n - 2 ^ k)) (seq 0 (S (Nat.log2 n))) /\
     (forall k, (k <= Nat.log2 n)%nat -> (2 ^ k <= n)%nat) /\
     (n < 2 ^ S (Nat.log2 n))%nat /\
     length (getExponentiallySpacedTransactions transactions) = (Nat.log2 n + 1)%nat) /\
    getExponentiallySpacedTransactions [] = [].
Proof.
  intros transactions n. split; [|reflexivity]. intros Hn.
  pose proof (@checkpoints_rounds transactions Hn) as H. fold n in H.
  split; [exact H|]. split; [|split].
  - intros k Hk. apply Nat.log2_le_pow2; [exact Hn | exact Hk].
  - apply Nat.log2_spec. exact Hn.
  - apply (f_equal (@length _)) in H.
    rewrite !length_map, length_seq in H. lia.
Qed.

Lemma checkpoints_exponentially_spaced_witness :
  map Some (getExponentiallySpacedTransactions sampleLog)
  = map Some (map sampleTransaction [5; 4; 2]) /\
  length (getExponentiallySpacedTransactions sampleLog) = 3%nat.
Proof.
  destruct (checkpoints_exponentially_spaced sampleLog) as [H _].
  destruct H as (H & _ & _ & L).
  - simpl. lia.
  - split; [exact H | exact L].
Defined.

(** C3, as stated, fails: a log of three transactions has two checkpoints
    (indices 2 and 1), not [ceil (log2 3) + 1 = 3]. *)
Lemma checkpoints_count_counterexample :
  let transactions := map sampleTransaction [1; 2; 3] in
  getExponentiallySpacedTransactions transactions = map sampleTransaction [3; 2] /\
  length (getExponentiallySpacedTransactions transactions)
  <> (Nat.log2_up (length transactions) + 1)%nat.
Proof.
  split; [reflexivity | vm_compute; discriminate].
Qed.

(** ** The engine *)

Lemma transactionList_copy (l : list Transaction) :
  map (fun transaction =>
         mkTransaction (transactionNumber transaction) (transactionTime transaction)
           (transactionTimeHash transaction) (anchorFileHash transaction)) l = l.
Proof.
  induction l as [|[a b c d] l IH]; [reflexivity|]. simpl. rewrite IH. reflexivity.
Qed.

Section EngineFacts.
Variable Upstream : Type.
Variable handleFetchRequest :
  option Z -> option string -> Upstream ->
  (Exception + Response FetchBody) * Upstream.
Variable handleFirstValidRequest :
  list Transaction -> Upstream ->
  (Exception + Response Transaction) * Upstream.

Local Abbreviation Service := (BlockchainService Upstream).
Local Abbreviation Revert := (RevertInvalidTransactions handleFirstValidRequest).
Local Abbreviation body1 := (fetchAndProcess handleFetchRequest handleFirstValidRequest).
Local Abbreviation loop := (doWhile handleFetchRequest handleFirstValidRequest).
Local Abbreviation cycle := (processTransactions handleFetchRequest handleFirstValidRequest).

Lemma forEach_consoleInfo (printed : list Message) (s : Service) :
  forEach printed (@consoleInfo Upstream) s = (Returned tt, s, map ConsoleInfo printed).
Proof.
  induction printed as [|m l IH]; [reflexivity|].
  simpl. unfold bind at 1. simpl. rewrite IH. reflexivity.
Qed.

(** [RevertInvalidTransactions], case by case. *)
Lemma RevertInvalidTransactions_eq (s : Service) :
  Revert s =
  let checkpoints := getExponentiallySpacedTransactions (transactionStore s) in
  let unchanged u :=
    mkService u (continuePeriodicProcessing s) (transactionStore s)
      (lastKnownTransaction s) (pollingIntervalInSeconds s) in
  match handleFirstValidRequest checkpoints (requestHandler s) with
  | (inl error, u) =>
      (Thrown error, unchanged u, [FirstValidRequest checkpoints (inl error)])
  | (inr r, u) =>
      if isSucceeded (status r) then
        match body r with
        | None => (Thrown TypeError, unchanged u, [FirstValidRequest checkpoints (inr r)])
        | Some b =>
            match removeTransactionsLaterThan (Some (transactionNumber b))
                    (transactionStore s) with
            | inl error =>
                (Thrown error, unchanged u,
                 [FirstValidRequest checkpoints (inr r);
                  ConsoleInfo (BestKnownValid (transactionNumber b))])
            | inr (printed, transactions) =>
                (Returned tt,
                 mkService u (continuePeriodicProcessing s) transactions (Some b)
                   (pollingIntervalInSeconds s),
                 FirstValidRequest checkpoints (inr r)
                 :: ConsoleInfo (BestKnownValid (transactionNumber b))
                 :: map ConsoleInfo printed)
            end
        end
      else (Returned tt, unchanged u, [FirstValidRequest checkpoints (inr r)])
  end.
Proof.
  unfold RevertInvalidTransactions, firstValidRequest,
  storeRemoveTransactionsLaterThan, setRequestHandler, setTransactionStore,
  setLastKnownTransaction, consoleInfo, emit, throw, ret, get, put, bind.
cbv beta zeta. rewrite transactionList_copy.
destruct (handleFirstValidRequest _ _) as [[error|r] u]; [reflexivity|].
cbn -[removeTransactionsLaterThan getExponentiallySpacedTransactions].
destruct (isSucceeded (status r)); [|reflexivity].
destruct (body r) as [b|]; [|reflexivity].
cbn -[removeTransactionsLaterThan getExponentiallySpacedTransactions].
destruct (removeTransactionsLaterThan _ _) as [e|[printed l]]; [reflexivity|].
fold (@consoleInfo Upstream). rewrite forEach_consoleInfo.
cbn -[getExponentiallySpacedTransactions]. rewrite !app_nil_r. reflexivity.
Qed.

Lemma isSucceeded_true r : isSucceeded r = true <-> r = Succeeded.
Proof. destruct r; simpl; split; congruence. Qed.

(** Fork resolution on a strictly increasing log, answered with a stored
    transaction: the log is cut after it and the cache holds it. *)
Lemma RevertInvalidTransactions_stored (s : Service) r u b :
  strictlyIncreasing (numbers (transactionStore s)) ->
  handleFirstValidRequest (getExponentiallySpacedTransactions (transactionStore s))
    (requestHandler s) = (inr r, u) ->
  status r = Succeeded -> body r = Some b ->
  In b (transactionStore s) ->
  exists printed,
    Revert s
    = (Returned tt,
       mkService u (continuePeriodicProcessing s)
         (filter (fun t => transactionNumber t <=? transactionNumber b)
                 (transactionStore s))
         (Some b) (pollingIntervalInSeconds s),
       FirstValidRequest (getExponentiallySpacedTransactions (transactionStore s)) (inr r)
       :: ConsoleInfo (BestKnownValid (transactionNumber b))
       :: map ConsoleInfo printed) /\
    getLastTransaction
      (filter (fun t => transactionNumber t <=? transactionNumber b)
              (transactionStore s)) = Some b.
Proof.
  intros Hinc Hfv Hst Hb Hin.
  apply In_nth_error in Hin. destruct Hin as [k Hk].
  rewrite RevertInvalidTransactions_eq. cbv zeta. rewrite Hfv, Hst, Hb.
  cbn [isSucceeded]. rewrite (removeTransactionsLaterThan_stored _ _ Hinc Hk).
  rewrite <- (firstn_filter _ _ Hinc Hk eq_refl).
  eexists. split; [reflexivity|].
  rewrite (firstn_S_snoc _ _ Hk). apply getLastTransaction_snoc.
Qed.

(** ** Properties of fork resolution *)

(** C4. With a log holding the transactions numbered 1 to 5 and a first-valid
    answer [Succeeded] naming transaction 3, [RevertInvalidTransactions]
    completes, the log then holds exactly the transactions numbered 1, 2, 3,
    and [lastKnownTransaction] is the transaction of the answer itself. *)
Theorem fork_resolution_end_to_end :
  forall (s : Service) (r : Response Transaction) (u : Upstream) (b : Transaction),
    numbers (transactionStore s) = [1; 2; 3; 4; 5] ->
    handleFirstValidRequest
      (getExponentiallySpacedTransactions (transactionStore s)) (requestHandler s)
    = (inr r, u) ->
    status r = Succeeded -> body r = Some b -> transactionNumber b = 3 ->
    exists s' events,
      Revert s = (Returned tt, s', events) /\
      numbers (transactionStore s') = [1; 2; 3] /\
      lastKnownTransaction s' = Some b.
Proof.
  intros s r u b Hnum Hfv Hst Hb H3.
  assert (Hinc : strictlyIncreasing (numbers (transactionStore s)))
    by (rewrite Hnum; reflexivity).
  assert (Hin : In 3 (numbers (transactionStore s)))
    by (rewrite Hnum; simpl; tauto).
  apply in_map_iff in Hin. destruct Hin as (t & Ht & Hin).
  apply In_nth_error in Hin. destruct Hin as [k Hk].
  rewrite RevertInvalidTransactions_eq. cbv zeta. rewrite Hfv, Hst, Hb, H3, <- Ht.
  cbn [isSucceeded]. rewrite (removeTransactionsLaterThan_stored _ _ Hinc Hk).
  do 2 eexists. split; [reflexivity|]. split; [|reflexivity].
  cbn [transactionStore]. rewrite (firstn_filter _ _ Hinc Hk eq_refl).
  unfold numbers in *.
  rewrite <- (filter_map_swap (fun x => x <=? transactionNumber t) transactionNumber).
  rewrite Hnum, Ht. reflexivity.
Qed.

(** C6, as the code has it.  When the first-valid request is answered with a
    status other than [Succeeded], [RevertInvalidTransactions] returns
    normally: nothing is thrown, nothing is written to the console, and the
    log and [lastKnownTransaction] stay as they were.  The answer is handled
    as a no-op. *)
Theorem no_valid_checkpoint_is_noop :
  forall (s : Service) (r : Response Transaction) (u : Upstream),
    handleFirstValidRequest
      (getExponentiallySpacedTransactions (transactionStore s)) (requestHandler s)
    = (inr r, u) ->
    status r <> Succeeded ->
    Revert s
    = (Returned tt,
       mkService u (continuePeriodicProcessing s) (transactionStore s)
         (lastKnownTransaction s) (pollingIntervalInSeconds s),
       [FirstValidRequest
          (getExponentiallySpacedTransactions (transactionStore s)) (inr r)]).
Proof.
  intros s r u Hfv Hst. rewrite RevertInvalidTransactions_eq. cbv zeta. rewrite Hfv.
  destruct (isSucceeded (status r)) eqn:E; [|reflexivity].
  apply isSucceeded_true in E. contradiction.
Qed.

(** C9. After each append of the ingestion loop, and after each truncation
    of fork resolution whose answer is one of the checkpoints sent (the log
    having been built from the empty log by the store's two mutating
    methods), [lastKnownTransaction] equals [getLastTransaction()]. *)
Theorem lastKnownTransaction_follows_log :
  forall (s : Service),
    (forall t, exists s1,
        ingest t s = (Returned tt, s1, []) /\
        transactionStore s1 = addTransaction t (transactionStore s) /\
        lastKnownTransaction s1 = getLastTransaction (transactionStore s1)) /\
    (forall cs r u b,
        transactionStore s = afterCalls cs ->
        handleFirstValidRequest
          (getExponentiallySpacedTransactions (transactionStore s)) (requestHandler s)
        = (inr r, u) ->
        status r = Succeeded -> body r = Some b ->
        In b (getExponentiallySpacedTransactions (transactionStore s)) ->
        exists s2 events,
          Revert s = (Returned tt, s2, events) /\
          transactionStore s2
          = filter (fun t => transactionNumber t <=? transactionNumber b)
                   (transactionStore s) /\
          lastKnownTransaction s2 = getLastTransaction (transactionStore s2)).
Proof.
  intros s. split.
  - intros t. eexists. split; [reflexivity|]. split; reflexivity.
  - intros cs r u b Hcs Hfv Hst Hb Hin.
    assert (Hinc : strictlyIncreasing (numbers (transactionStore s)))
      by (rewrite Hcs; apply afterCalls_increasing).
    destruct (RevertInvalidTransactions_stored s Hinc Hfv Hst Hb
                (checkpoints_stored _ _ Hin)) as (printed & HR & Hlast).
    do 2 eexists. split; [exact HR|]. split; [reflexivity|].
    cbn [transactionStore lastKnownTransaction]. symmetry. exact Hlast.
Qed.


(** ** The processing cycle *)

Lemma upstreamCalls_app t1 t2 :
  upstreamCalls (t1 ++ t2) = upstreamCalls t1 ++ upstreamCalls t2.
Proof. apply filter_app. Qed.

Lemma upstreamCalls_console (printed : list Message) :
  upstreamCalls (map ConsoleInfo printed) = [].
Proof. induction printed as [|m l IH]; [reflexivity | exact IH]. Qed.

Lemma forEach_ingest (l : list Transaction) : forall s : Service,
  exists s', forEach l (@ingest Upstream) s = (Returned tt, s', []).
Proof.
  induction l as [|t l IH]; intros s; [eexists; reflexivity|].
  cbn [forEach]. unfold bind at 1.
  change (ingest t s) with
    (Returned tt,
     mkService (requestHandler s) (continuePeriodicProcessing s)
       (addTransaction t (transactionStore s))
       (getLastTransaction (addTransaction t (transactionStore s)))
       (pollingIntervalInSeconds s), @nil Event).
  cbv iota beta. destruct (IH (mkService (requestHandler s) (continuePeriodicProcessing s)
       (addTransaction t (transactionStore s))
       (getLastTransaction (addTransaction t (transactionStore s)))
       (pollingIntervalInSeconds s))) as [s' E].
  rewrite E. eexists. reflexivity.
Qed.

(** Fork resolution sends exactly one request upstream, a first-valid
    request, and always ends. *)
Lemma RevertInvalidTransactions_calls (s : Service) o s' t :
  Revert s = (o, s', t) ->
  o <> OutOfFuel /\
  exists v, isFirstValid v = true /\ upstreamCalls t = [v].
Proof.
  rewrite RevertInvalidTransactions_eq. cbv zeta.
  assert (Hone : forall v rest,
             isFirstValid v = true -> upstreamCalls rest = [] ->
             exists v', isFirstValid v' = true /\ upstreamCalls (v :: rest) = [v']).
  { intros v rest Hv Hrest. exists v. split; [exact Hv|].
    unfold upstreamCalls in *. cbn [filter]. rewrite Hv, orb_true_r, Hrest. reflexivity. }
  destruct (handleFirstValidRequest _ _) as [[error|r] u].
  - intros H; injection H as <- _ <-. split; [discriminate|]. apply Hone; reflexivity.
  - destruct (isSucceeded (status r)).
    + destruct (body r) as [b|].
      * destruct (removeTransactionsLaterThan _ _) as [e|[printed l]];
          intros H; injection H as <- _ <-; (split; [discriminate|]);
          (apply Hone; [reflexivity|]); [reflexivity|].
        exact (upstreamCalls_console printed).
      * intros H; injection H as <- _ <-. split; [discriminate|]. apply Hone; reflexivity.
    + intros H; injection H as <- _ <-. split; [discriminate|]. apply Hone; reflexivity.
Qed.

Ltac run_engine :=
cbn -[forEach ingest RevertInvalidTransactions upstreamCalls String.eqb
      getExponentiallySpacedTransactions removeTransactionsLaterThan].

Lemma fetchAndProcess_calls flag more (s : Service) o s1 t1 :
body1 flag more s = (o, s1, t1) ->
exists f, isFetch f = true /\
  ((upstreamCalls t1 = [f] /\ isReorgFetch f = false /\
    match o with
    | Returned vars => flag = false /\ fst vars = false
    | Thrown _ => True
    | OutOfFuel => False
    end) \/
   (exists v, isFirstValid v = true /\ upstreamCalls t1 = [f; v] /\
              (flag = true \/ isReorgFetch f = true) /\
              match o with
              | Returned vars => fst vars = true
              | Thrown _ => True
              | OutOfFuel => False
              end)).
Proof.
unfold fetchAndProcess, fetchRequest, setRequestHandler, consoleInfo, emit, throw, ret, get, put.
unfold bind at 1 2 3 4 5 6.
destruct (handleFetchRequest _ _ _) as [[error|[st bd]] u].
- cbn. intros H; injection H as <- <- <-. eexists (FetchRequest _ _ _). split; [reflexivity|].
  left. split; [reflexivity|]. split; [reflexivity|exact I].
- destruct st; destruct bd as [[[|first txs] m'|code]|]; run_engine;
    try destruct (String.eqb code invalid_transaction_number_or_time_hash) eqn:Ecode;
    unfold bind; run_engine;
    try match goal with
        | |- context [forEach ?l _ ?st] =>
            destruct (forEach_ingest l st) as [s' Es']; rewrite Es'; run_engine
        end;
    destruct flag; run_engine;
    try match goal with
        | |- context [RevertInvalidTransactions ?h ?st] =>
            destruct (RevertInvalidTransactions h st) as [[o3 s3] t3] eqn:ER;
            destruct (RevertInvalidTransactions_calls _ ER) as (Hne & v & Hv & Hc);
            destruct o3; [ | | congruence]
        end;
    run_engine; intros H; injection H as <- <- <-;
    eexists (FetchRequest _ _ _); (split; [reflexivity|]);
    first [ left; split; [reflexivity|]; split; [first [reflexivity | exact Ecode]|];
            first [exact I | split; reflexivity]
          | right; exists v; split; [exact Hv|]; split;
            [ unfold upstreamCalls in *;
              repeat (cbn [filter isFetch isFirstValid orb app] || rewrite filter_app || rewrite Hc);
              reflexivity
            | split; [first [left; reflexivity | right; exact Ecode]
                     | first [exact I | reflexivity]] ] ].
Qed.

Lemma doWhile_calls fuel : forall flag more (s : Service) o s' t,
  loop fuel flag more s = (o, s', t) ->
  (flag = true -> fetchThenFirstValid (isReturned o) (upstreamCalls t) = true) /\
  (flag = false ->
   fetchThenFirstValid (isReturned o) (sinceReorgSignal (upstreamCalls t)) = true /\
   (existsb isReorgFetch (upstreamCalls t) = false ->
    existsb isFirstValid (upstreamCalls t) = false)).
Proof.
induction fuel as [|fuel IH]; intros flag more s o s' t.
- intros H; injection H as <- _ <-. repeat split; reflexivity.
- cbn [doWhile]. unfold bind at 1.
  destruct (body1 flag more s) as [[o1 s1] t1] eqn:EB.
  apply fetchAndProcess_calls in EB.
  destruct EB as (f & Hf & [(Hc & Hnr & Ho) | (v & Hv & Hc & Hor & Ho)]).
  + destruct f as [n h res| | | | |]; try discriminate.
    destruct o1 as [vars|e|]; [|intros H; injection H as <- _ <-|contradiction].
    * destruct Ho as [-> Hvars]. destruct vars as [flag' more']. cbn [fst snd] in *.
      subst flag'. destruct more'.
      -- destruct (loop fuel false true s1) as [[o2 s2] t2] eqn:EL.
         apply IH in EL. destruct EL as [_ EL]. destruct (EL eq_refl) as [E1 E2].
         intros H; injection H as <- _ <-. split; [discriminate|]. intros _.
         rewrite upstreamCalls_app, Hc. cbn [app sinceReorgSignal existsb].
         rewrite Hnr. cbn [isFirstValid orb]. split; assumption.
      -- unfold ret. intros H; injection H as <- _ <-. split; [discriminate|]. intros _.
         rewrite app_nil_r, Hc. cbn [sinceReorgSignal existsb]. rewrite Hnr.
         split; reflexivity.
    * rewrite Hc. cbn [sinceReorgSignal existsb]. rewrite Hnr. repeat split; reflexivity.
  + destruct f as [n h res| | | | |]; try discriminate.
    destruct v as [|l res'| | | |]; try discriminate.
    assert (Hsince : forall rest,
               flag = false ->
               sinceReorgSignal (FetchRequest n h res :: FirstValidRequest l res' :: rest)
               = FetchRequest n h res :: FirstValidRequest l res' :: rest).
    { intros rest ->. destruct Hor as [Hor|Hor]; [discriminate|].
      cbn [sinceReorgSignal]. rewrite Hor. reflexivity. }
    assert (Hex : forall rest,
               flag = false ->
               existsb isReorgFetch (FetchRequest n h res :: FirstValidRequest l res' :: rest)
               = false -> False).
    { intros rest ->. destruct Hor as [Hor|Hor]; [discriminate|].
      cbn [existsb]. rewrite Hor. discriminate. }
    destruct o1 as [vars|e|]; [|intros H; injection H as <- _ <-|contradiction].
    * destruct vars as [flag' more']. cbn [fst snd] in *. subst flag'. destruct more'.
      -- destruct (loop fuel true true s1) as [[o2 s2] t2] eqn:EL.
         apply IH in EL. destruct EL as [EL _]. specialize (EL eq_refl).
         intros H; injection H as <- _ <-.
         rewrite upstreamCalls_app, Hc. cbn [app]. split.
         ++ intros _. exact EL.
         ++ intros Hflag. rewrite (Hsince _ Hflag). split; [exact EL|].
            intros Hno. destruct (Hex _ Hflag Hno).
      -- unfold ret. intros H; injection H as <- _ <-.
         rewrite app_nil_r, Hc. split.
         ++ intros _. reflexivity.
         ++ intros Hflag. rewrite (Hsince _ Hflag). split; [reflexivity|].
            intros Hno. destruct (Hex _ Hflag Hno).
    * rewrite Hc. split.
      -- intros _. reflexivity.
      -- intros Hflag. rewrite (Hsince _ Hflag). split; [reflexivity|].
         intros Hno. destruct (Hex _ Hflag Hno).
Qed.

(** A cycle is its loop, then console lines and the timer only. *)
Lemma processTransactions_eq fuel (s : Service) :
  cycle fuel s =
  match loop fuel false false s with
  | (Returned _, s1, t1) =>
      (Returned tt, s1,
       t1 ++ (if continuePeriodicProcessing s1
              then [ConsoleInfo (Waiting (pollingIntervalInSeconds s1));
                    SetTimeout (pollingIntervalInSeconds s1 * 1000)]
              else []))
  | (Thrown e, s1, t1) =>
      (Returned tt, s1,
       t1 ++ ConsoleError (Text "Encountered unhandled and possibly fatal error, must investigate and fix:")
          :: ConsoleError (Caught e)
          :: (if continuePeriodicProcessing s1
              then [ConsoleInfo (Waiting (pollingIntervalInSeconds s1));
                    SetTimeout (pollingIntervalInSeconds s1 * 1000)]
              else []))
  | (OutOfFuel, s1, t1) => (OutOfFuel, s1, t1)
  end.
Proof.
unfold processTransactions, tryCatchFinally. cbv zeta.
destruct (loop fuel false false s) as [[[a|e|] s1] t1]; [| |reflexivity].
- unfold bind, get, consoleInfo, emit, ret.
  destruct (continuePeriodicProcessing s1); reflexivity.
- unfold bind, get, consoleInfo, consoleError, emit, ret.
  destruct (continuePeriodicProcessing s1); reflexivity.
Qed.

Lemma sinceReorgSignal_upstreamCalls events :
  upstreamCalls (sinceReorgSignal events) = sinceReorgSignal (upstreamCalls events).
Proof.
induction events as [|e l IH]; [reflexivity|].
cbn [sinceReorgSignal]. destruct (isReorgFetch e) eqn:E.
- destruct e as [n h [x|r]| | | | |]; try discriminate.
  unfold upstreamCalls. cbn [filter isFetch orb sinceReorgSignal isReorgFetch].
  cbn [isReorgFetch] in E. rewrite E. reflexivity.
- rewrite IH. unfold upstreamCalls. cbn [filter].
  destruct (isFetch e || isFirstValid e); [|reflexivity].
  cbn [sinceReorgSignal]. rewrite E. reflexivity.
Qed.

Lemma existsb_upstreamCalls (p : Event -> bool) events :
  (forall e, p e = true -> isFetch e || isFirstValid e = true) ->
  existsb p (upstreamCalls events) = existsb p events.
Proof.
intros Hp. induction events as [|e l IH]; [reflexivity|].
unfold upstreamCalls in *. cbn [filter existsb].
destruct (isFetch e || isFirstValid e) eqn:E.
- cbn [existsb]. rewrite IH. reflexivity.
- rewrite IH. destruct (p e) eqn:Ep; [|reflexivity].
  rewrite (Hp e Ep) in E. discriminate.
Qed.

Lemma isReorgFetch_isFetch e : isReorgFetch e = true -> isFetch e || isFirstValid e = true.
Proof. destruct e; try discriminate. reflexivity. Qed.

Lemma isFirstValid_isCall e : isFirstValid e = true -> isFetch e || isFirstValid e = true.
Proof. intros ->. apply orb_true_r. Qed.

Lemma fetchThenFirstValid_lenient :
  forall calls, fetchThenFirstValid true calls = true ->
                fetchThenFirstValid false calls = true.
Proof.
fix go 1. intros [|f [|v l]]; [reflexivity | cbn; rewrite andb_false_r; discriminate|].
cbn [fetchThenFirstValid]. intros H.
apply andb_true_iff in H. destruct H as [Hf H].
apply andb_true_iff in H. destruct H as [Hv H].
rewrite Hf, Hv. exact (go l H).
Qed.

(** C10. The flag [blockReorganizationDetected] is false when a cycle
    begins, is set by the reorg signal and is never cleared within the
    cycle.  So: a cycle without a reorg signal sends no first-valid request;
    a round of the loop entered with the flag set ends with the flag set and
    has run fork resolution; and from the first reorg signal of a cycle on,
    the upstream requests are fetch, first-valid, fetch, first-valid, ...:
    every later fetch of the cycle, whatever its answer, is followed by fork
    resolution before the next fetch (and before the end of the cycle, when
    no exception cuts the round short). *)
Theorem reorganization_flag_is_sticky :
  forall (fuel : nat) (s : Service),
    let events := snd (cycle fuel s) in
    (existsb isReorgFetch events = false -> existsb isFirstValid events = false) /\
    fetchThenFirstValid false (upstreamCalls (sinceReorgSignal events)) = true /\
    (fst (fst (cycle fuel s)) = Returned tt ->
     existsb isConsoleError events = false ->
     fetchThenFirstValid true (upstreamCalls (sinceReorgSignal events)) = true) /\
    (forall more s1 vars s2 t,
        body1 true more s1 = (Returned vars, s2, t) ->
        fst vars = true /\ existsb isFirstValid t = true).
Proof.
intros fuel s events. subst events. rewrite processTransactions_eq.
destruct (loop fuel false false s) as [[o1 s1] t1] eqn:EL.
apply doWhile_calls in EL. destruct EL as [_ EL]. destruct (EL eq_refl) as [E1 E2].
rewrite (existsb_upstreamCalls isReorgFetch t1 isReorgFetch_isFetch) in E2.
rewrite (existsb_upstreamCalls isFirstValid t1 isFirstValid_isCall) in E2.
assert (Htail : forall tail,
           upstreamCalls tail = [] ->
           upstreamCalls (sinceReorgSignal (t1 ++ tail))
           = sinceReorgSignal (upstreamCalls t1) /\
           existsb isReorgFetch (t1 ++ tail) = existsb isReorgFetch t1 /\
           existsb isFirstValid (t1 ++ tail) = existsb isFirstValid t1).
{ intros tail Ht. rewrite sinceReorgSignal_upstreamCalls, upstreamCalls_app, Ht, app_nil_r.
  split; [reflexivity|].
  rewrite <- (existsb_upstreamCalls isReorgFetch (t1 ++ tail) isReorgFetch_isFetch).
  rewrite <- (existsb_upstreamCalls isFirstValid (t1 ++ tail) isFirstValid_isCall).
  rewrite upstreamCalls_app, Ht, app_nil_r.
  rewrite !existsb_upstreamCalls by (first [exact isReorgFetch_isFetch | exact isFirstValid_isCall]).
  split; reflexivity. }
assert (Hlenient : fetchThenFirstValid false (sinceReorgSignal (upstreamCalls t1)) = true)
  by (destruct o1; [apply fetchThenFirstValid_lenient|..]; exact E1).
assert (Hquiet : forall b : bool,
           upstreamCalls (if b then [ConsoleInfo (Waiting (pollingIntervalInSeconds s1));
                                     SetTimeout (pollingIntervalInSeconds s1 * 1000)]
                          else []) = [])
  by (intros [|]; reflexivity).
split; [|split; [|split]].
- destruct o1 as [a|e|]; cbn [snd].
  + destruct (Htail _ (Hquiet (continuePeriodicProcessing s1))) as (_ & -> & ->). exact E2.
  + match goal with |- context [t1 ++ ?tail] =>
      destruct (Htail tail) as (_ & -> & ->); [apply (Hquiet (continuePeriodicProcessing s1))|]
    end. exact E2.
  + exact E2.
- destruct o1 as [a|e|]; cbn [snd].
  + destruct (Htail _ (Hquiet (continuePeriodicProcessing s1))) as (-> & _). exact Hlenient.
  + match goal with |- context [t1 ++ ?tail] =>
      destruct (Htail tail) as (-> & _); [apply (Hquiet (continuePeriodicProcessing s1))|]
    end. exact Hlenient.
  + rewrite sinceReorgSignal_upstreamCalls. exact Hlenient.
- destruct o1 as [a|e|]; cbn [fst snd].
  + intros _ _.
    destruct (Htail _ (Hquiet (continuePeriodicProcessing s1))) as (-> & _). exact E1.
  + intros _ Hno. rewrite existsb_app in Hno. cbn [existsb isConsoleError] in Hno.
    rewrite orb_true_r in Hno. discriminate.
  + discriminate.
- intros more s0 vars s2 t EB. apply fetchAndProcess_calls in EB.
  destruct EB as (f & Hf & [(_ & _ & Hfalse & _) | (v & Hv & Hc & _ & Ho)]); [discriminate|].
  split; [exact Ho|].
  rewrite <- (existsb_upstreamCalls isFirstValid t isFirstValid_isCall), Hc.
  cbn [existsb]. rewrite Hv. apply orb_true_iff. right. reflexivity.
Qed.

(** The round of the loop whose fetch is answered with the reorg signal. *)
Lemma fetchAndProcess_reorg flag more (s : Service) r u :
  let n := match lastKnownTransaction s with
           | Some t => Some (transactionNumber t) | None => None end in
  let h := match lastKnownTransaction s with
           | Some t => Some (transactionTimeHash t) | None => None end in
  handleFetchRequest n h (requestHandler s) = (inr r, u) ->
  isReorgSignal r = true ->
  body1 flag more s =
  match Revert (mkService u (continuePeriodicProcessing s) (transactionStore s)
                  (lastKnownTransaction s) (pollingIntervalInSeconds s)) with
  | (Returned _, s3, t3) =>
      (Returned (true, more), s3,
       [ConsoleInfo (Text "Fetching Sidetree transactions from blockchain service...");
        FetchRequest n h (inr r);
        ConsoleInfo (Text "Block reorganization detected.");
        ConsoleInfo (Text "Reverting invalid transactions...")]
       ++ t3 ++ [ConsoleInfo (Text "Completed reverting invalid transactions.")])
  | (Thrown e, s3, t3) =>
      (Thrown e, s3,
       [ConsoleInfo (Text "Fetching Sidetree transactions from blockchain service...");
        FetchRequest n h (inr r);
        ConsoleInfo (Text "Block reorganization detected.");
        ConsoleInfo (Text "Reverting invalid transactions...")] ++ t3)
  | (OutOfFuel, s3, t3) =>
      (OutOfFuel, s3,
       [ConsoleInfo (Text "Fetching Sidetree transactions from blockchain service...");
        FetchRequest n h (inr r);
        ConsoleInfo (Text "Block reorganization detected.");
        ConsoleInfo (Text "Reverting invalid transactions...")] ++ t3)
  end.
Proof.
intros n h Hfetch Hsig. subst n h.
unfold fetchAndProcess, fetchRequest, setRequestHandler, consoleInfo, emit, throw, ret, get, put.
unfold bind at 1 2 3 4 5 6. rewrite Hfetch.
destruct r as [st bd]. unfold isReorgSignal in Hsig. cbn [status body] in Hsig.
destruct st; try discriminate. destruct bd as [[txs m'|code]|]; try discriminate.
run_engine. rewrite Hsig. unfold bind. run_engine.
destruct (RevertInvalidTransactions _ _) as [[[a|e|] s3] t3]; run_engine;
  rewrite ?app_nil_r; reflexivity.
Qed.

(** The first request of a round refers to [lastKnownTransaction]. *)
Lemma doWhile_first_fetch fuel flag more (s : Service) :
  exists result rest,
    snd (loop (S fuel) flag more s)
    = ConsoleInfo (Text "Fetching Sidetree transactions from blockchain service...")
      :: FetchRequest
           match lastKnownTransaction s with
           | Some t => Some (transactionNumber t) | None => None end
           match lastKnownTransaction s with
           | Some t => Some (transactionTimeHash t) | None => None end
           result
      :: rest.
Proof.
cbn [doWhile].
unfold fetchAndProcess, fetchRequest, setRequestHandler, consoleInfo, emit, throw, get, put.
unfold bind at 1 2 3 4 5 6 7.
destruct (handleFetchRequest _ _ _) as [[error|r] u].
- cbn. do 2 eexists. reflexivity.
- run_engine.
  match goal with
  | |- context [bind ?m ?k ?st] => destruct (bind m k st) as [[[vars|e|] s3] t3]
  end; run_engine.
  + match goal with
    | |- context [if ?b then _ else _] => destruct b
    end.
    * match goal with
      | |- context [doWhile ?a ?b ?c ?d ?e ?f] => destruct (doWhile a b c d e f) as [[o4 s4] t4]
      end. run_engine. do 2 eexists. reflexivity.
    * unfold ret. run_engine. do 2 eexists. reflexivity.
  + do 2 eexists. reflexivity.
  + do 2 eexists. reflexivity.
Qed.

(** What fork resolution sends upstream: one first-valid request with the
    checkpoints of the log, whatever the answer, and no fetch. *)
Lemma RevertInvalidTransactions_request (s : Service) :
  upstreamCalls (snd (Revert s))
  = [FirstValidRequest (getExponentiallySpacedTransactions (transactionStore s))
       (fst (handleFirstValidRequest
               (getExponentiallySpacedTransactions (transactionStore s))
               (requestHandler s)))] /\
  filter isFetch (snd (Revert s)) = [].
Proof.
assert (Hq : forall printed, filter isFetch (map ConsoleInfo printed) = [])
  by (induction printed; [reflexivity | assumption]).
rewrite RevertInvalidTransactions_eq. cbv zeta.
destruct (handleFirstValidRequest _ _) as [[error|r] u]; cbn [fst snd];
  try destruct (isSucceeded (status r)); try destruct (body r) as [b|];
  try destruct (removeTransactionsLaterThan _ _) as [e|[printed l]];
  cbn [fst snd]; try (split; reflexivity).
split.
- unfold upstreamCalls. cbn [filter isFetch isFirstValid orb].
  fold (upstreamCalls (map ConsoleInfo printed)). rewrite upstreamCalls_console.
  reflexivity.
- cbn [filter isFetch]. apply Hq.
Qed.

(** C5, as the code has it.  Whenever a fetch is answered with the reorg
    signal, whatever the round's flag and whatever fork resolution is then
    answered, the same round of the loop runs fork resolution: it sends one
    first-valid request with the checkpoints of the log, right after the
    fetch.  Only then is the loop condition evaluated, on the value
    [moreTransactions] had before the fetch, which the signal leaves as it
    was: when fork resolution returns, the loop goes on to another fetch in
    the same cycle exactly when that earlier value is true, and with it
    false the cycle has sent this one fetch only; when fork resolution
    throws, the loop is left.  An answer other than [Succeeded] makes the
    round return with the log and the cache untouched.  When the
    first-valid request is answered [Succeeded] with one of the checkpoints
    sent (the log having been built by the store's two mutating methods),
    the log is truncated to the transactions numbered at most the answer's,
    [lastKnownTransaction] is the answer, which is the new tail of the log,
    and the next round, whenever it runs, fetches with that transaction's
    number and time hash as reference. *)
Theorem reorg_signal_runs_fork_resolution :
  forall (fuel : nat) (flag more : bool) (s : Service)
         (r : Response FetchBody) (u1 : Upstream),
    let n := match lastKnownTransaction s with
             | Some t => Some (transactionNumber t) | None => None end in
    let h := match lastKnownTransaction s with
             | Some t => Some (transactionTimeHash t) | None => None end in
    let checkpoints := getExponentiallySpacedTransactions (transactionStore s) in
    let fetched := mkService u1 (continuePeriodicProcessing s) (transactionStore s)
                     (lastKnownTransaction s) (pollingIntervalInSeconds s) in
    let round :=
      [ConsoleInfo (Text "Fetching Sidetree transactions from blockchain service...");
       FetchRequest n h (inr r);
       ConsoleInfo (Text "Block reorganization detected.");
       ConsoleInfo (Text "Reverting invalid transactions...")] in
    let completed :=
      [ConsoleInfo (Text "Completed reverting invalid transactions.")] in
    handleFetchRequest n h (requestHandler s) = (inr r, u1) ->
    isReorgSignal r = true ->
    upstreamCalls (snd (body1 flag more s))
    = [FetchRequest n h (inr r);
       FirstValidRequest checkpoints (fst (handleFirstValidRequest checkpoints u1))] /\
    loop (S fuel) flag more s
    = match Revert fetched with
      | (Returned _, s', t) =>
          if more
          then match loop fuel true more s' with
               | (o, s'', rest) => (o, s'', (round ++ t ++ completed) ++ rest)
               end
          else (Returned tt, s', (round ++ t ++ completed) ++ [])
      | (Thrown e, s', t) => (Thrown e, s', round ++ t)
      | (OutOfFuel, s', t) => (OutOfFuel, s', round ++ t)
      end /\
    (more = false ->
     length (filter isFetch (snd (loop (S fuel) flag more s))) = 1%nat) /\
    (forall resp u2,
        handleFirstValidRequest checkpoints u1 = (inr resp, u2) ->
        status resp <> Succeeded ->
        body1 flag more s
        = (Returned (true, more),
           mkService u2 (continuePeriodicProcessing s) (transactionStore s)
             (lastKnownTransaction s) (pollingIntervalInSeconds s),
           round ++ [FirstValidRequest checkpoints (inr resp)] ++ completed)) /\
    (forall resp u2 b cs,
        transactionStore s = afterCalls cs ->
        handleFirstValidRequest checkpoints u1 = (inr resp, u2) ->
        status resp = Succeeded -> body resp = Some b -> In b checkpoints ->
        exists s' events,
          body1 flag more s = (Returned (true, more), s', events) /\
          upstreamCalls events
          = [FetchRequest n h (inr r); FirstValidRequest checkpoints (inr resp)] /\
          loop (S fuel) flag more s
          = (if more
             then match loop fuel true more s' with
                  | (o, s'', rest) => (o, s'', events ++ rest)
                  end
             else (Returned tt, s', events ++ [])) /\
          transactionStore s'
          = filter (fun t => transactionNumber t <=? transactionNumber b)
                   (transactionStore s) /\
          getLastTransaction (transactionStore s') = Some b /\
          lastKnownTransaction s' = Some b /\
          (forall fuel' flag' more', exists result rest,
              snd (loop (S fuel') flag' more' s')
              = ConsoleInfo (Text "Fetching Sidetree transactions from blockchain service...")
                :: FetchRequest (Some (transactionNumber b))
                     (Some (transactionTimeHash b)) result
                :: rest)).
Proof.
intros fuel flag more s r u1 n h checkpoints fetched round completed Hfetch Hsig.
pose proof (@fetchAndProcess_reorg flag more s r u1 Hfetch Hsig) as HB.
fold n h fetched in HB. fold round completed in HB.
destruct (RevertInvalidTransactions_request fetched) as [Hreq Hnofetch].
cbn [fetched transactionStore requestHandler] in Hreq. fold checkpoints in Hreq.
assert (Hround : upstreamCalls round = [FetchRequest n h (inr r)]) by reflexivity.
assert (Hroundf : filter isFetch round = [FetchRequest n h (inr r)]) by reflexivity.
assert (Hloop : loop (S fuel) flag more s
    = match Revert fetched with
      | (Returned _, s', t) =>
          if more
          then match loop fuel true more s' with
               | (o, s'', rest) => (o, s'', (round ++ t ++ completed) ++ rest)
               end
          else (Returned tt, s', (round ++ t ++ completed) ++ [])
      | (Thrown e, s', t) => (Thrown e, s', round ++ t)
      | (OutOfFuel, s', t) => (OutOfFuel, s', round ++ t)
      end).
{ cbn [doWhile]. unfold bind at 1. rewrite HB.
  destruct (Revert fetched) as [[[a|e|] s3] t3]; cbn [fst snd]; [|reflexivity..].
  destruct more; reflexivity. }
split; [|split; [exact Hloop|split; [|split]]].
- rewrite HB. destruct (Revert fetched) as [[[a|e|] s3] t3]; cbn [snd] in *;
    rewrite !upstreamCalls_app, Hround, Hreq; reflexivity.
- intros ->. rewrite Hloop.
  destruct (Revert fetched) as [[[a|e|] s3] t3]; cbn [snd] in *;
    rewrite !filter_app, Hroundf, Hnofetch; reflexivity.
- intros resp u2 Hfv Hst. rewrite HB, RevertInvalidTransactions_eq. cbv zeta.
  cbn [fetched transactionStore requestHandler continuePeriodicProcessing
       lastKnownTransaction pollingIntervalInSeconds].
  fold checkpoints. rewrite Hfv.
  destruct (isSucceeded (status resp)) eqn:E; [|reflexivity].
  apply isSucceeded_true in E. contradiction.
- intros resp u2 b cs Hcs Hfv Hst Hb Hin.
  assert (Hinc : strictlyIncreasing (numbers (transactionStore s)))
    by (rewrite Hcs; apply afterCalls_increasing).
  destruct (@RevertInvalidTransactions_stored fetched resp u2 b Hinc Hfv Hst Hb
              (checkpoints_stored _ _ Hin)) as (printed & HR & Hlast).
  rewrite HR in HB.
  cbn [transactionStore continuePeriodicProcessing pollingIntervalInSeconds fetched]
    in HB, Hlast.
  do 2 eexists. split; [exact HB|]. split; [|split; [|split; [|split; [|split]]]].
  + fold checkpoints. unfold upstreamCalls, round, completed.
    cbn [app filter isFetch isFirstValid orb].
    rewrite filter_app. fold (upstreamCalls (map ConsoleInfo printed)).
    rewrite upstreamCalls_console. reflexivity.
  + cbn [doWhile]. unfold bind at 1. rewrite HB. cbn [fst snd].
    destruct more; reflexivity.
  + reflexivity.
  + exact Hlast.
  + reflexivity.
  + intros fuel' flag' more'.
    match goal with
    | |- context [doWhile _ _ _ _ _ ?st] =>
        destruct (doWhile_first_fetch fuel' flag' more' st) as (result & rest & E)
    end.
    exists result, rest. exact E.
Qed.

(** *** The engine only mutates its store through the store's methods *)

Lemma builtByCalls_afterCall transactions c :
  builtByCalls transactions -> builtByCalls (afterCall transactions c).
Proof.
intros [cs ->]. exists (cs ++ [c]). unfold afterCalls. rewrite fold_left_app. reflexivity.
Qed.

Lemma builtByCalls_increasing transactions :
  builtByCalls transactions -> strictlyIncreasing (numbers transactions).
Proof. intros [cs ->]. apply afterCalls_increasing. Qed.

Lemma forEach_ingest_built (l : list Transaction) : forall s : Service,
  builtByCalls (transactionStore s) ->
  exists s', forEach l (@ingest Upstream) s = (Returned tt, s', []) /\
             builtByCalls (transactionStore s').
Proof.
induction l as [|t l IH]; intros s Hs; [eexists; split; [reflexivity | exact Hs]|].
cbn [forEach]. unfold bind at 1.
change (ingest t s) with
  (Returned tt,
   mkService (requestHandler s) (continuePeriodicProcessing s)
     (addTransaction t (transactionStore s))
     (getLastTransaction (addTransaction t (transactionStore s)))
     (pollingIntervalInSeconds s), @nil Event).
cbv iota beta.
destruct (IH (mkService (requestHandler s) (continuePeriodicProcessing s)
     (addTransaction t (transactionStore s))
     (getLastTransaction (addTransaction t (transactionStore s)))
     (pollingIntervalInSeconds s))) as (s' & E & Hs').
- exact (builtByCalls_afterCall (CallAddTransaction t) Hs).
- rewrite E. eexists. split; [reflexivity | exact Hs'].
Qed.

Lemma RevertInvalidTransactions_built (s : Service) o s' t :
  Revert s = (o, s', t) ->
  builtByCalls (transactionStore s) -> builtByCalls (transactionStore s').
Proof.
rewrite RevertInvalidTransactions_eq. cbv zeta. intros H Hs.
destruct (handleFirstValidRequest _ _) as [[error|r] u].
- injection H as _ <- _. exact Hs.
- destruct (isSucceeded (status r)); [|injection H as _ <- _; exact Hs].
  destruct (body r) as [b|]; [|injection H as _ <- _; exact Hs].
  pose proof (builtByCalls_afterCall
                (CallRemoveTransactionsLaterThan (Some (transactionNumber b))) Hs) as Hc.
  cbn [afterCall] in Hc.
  destruct (removeTransactionsLaterThan _ _) as [e|[printed l]];
    injection H as _ <- _; [exact Hs | exact Hc].
Qed.

Lemma fetchAndProcess_built flag more (s : Service) o s1 t1 :
  body1 flag more s = (o, s1, t1) ->
  builtByCalls (transactionStore s) -> builtByCalls (transactionStore s1).
Proof.
intros H Hs. revert H.
unfold fetchAndProcess, fetchRequest, setRequestHandler, consoleInfo, emit, throw, ret, get, put.
unfold bind at 1 2 3 4 5 6.
destruct (handleFetchRequest _ _ _) as [[error|[st bd]] u].
- cbn. intros H; injection H as _ <- _. exact Hs.
- destruct st; destruct bd as [[[|first txs] m'|code]|]; run_engine;
    try destruct (String.eqb code invalid_transaction_number_or_time_hash);
    unfold bind; run_engine;
    try match goal with
        | |- context [forEach ?l _ ?st] =>
            destruct (forEach_ingest_built l st Hs) as (s' & Es' & Hs'); rewrite Es';
            run_engine
        end;
    destruct flag; run_engine;
    try match goal with
        | |- context [RevertInvalidTransactions ?h ?st] =>
            destruct (RevertInvalidTransactions h st) as [[o3 s3] t3] eqn:ER;
            apply RevertInvalidTransactions_built in ER; [|assumption];
            destruct o3
        end;
    run_engine; intros H; injection H as _ <- _; assumption.
Qed.

Lemma doWhile_built fuel : forall flag more (s : Service) o s' t,
  loop fuel flag more s = (o, s', t) ->
  builtByCalls (transactionStore s) -> builtByCalls (transactionStore s').
Proof.
induction fuel as [|fuel IH]; intros flag more s o s' t.
- intros H Hs; injection H as _ <- _. exact Hs.
- cbn [doWhile]. unfold bind at 1.
  destruct (body1 flag more s) as [[[vars|e|] s1] t1] eqn:EB; intros H Hs;
    pose proof (fetchAndProcess_built _ _ _ EB Hs) as Hs1;
    [|injection H as _ <- _; exact Hs1..].
  destruct (snd vars).
  + destruct (loop fuel (fst vars) true s1) as [[o2 s2] t2] eqn:EL.
    injection H as _ <- _. exact (IH _ _ _ _ _ _ EL Hs1).
  + injection H as _ <- _. exact Hs1.
Qed.

(** Every cycle leaves a store built from the empty one by the store's
    methods; a new engine starts with the empty store. *)
Lemma processTransactions_built fuel (s : Service) :
  builtByCalls (transactionStore s) ->
  builtByCalls (transactionStore (snd (fst (cycle fuel s)))).
Proof.
intros Hs. rewrite processTransactions_eq.
destruct (loop fuel false false s) as [[[a|e|] s1] t1] eqn:EL;
  exact (doWhile_built _ _ _ _ EL Hs).
Qed.

End EngineFacts.

(** ** The properties on sample runs *)

Lemma fork_resolution_end_to_end_witness :
  exists s' events,
    RevertInvalidTransactions (firstValidIs 3) (sampleService tt)
    = (Returned tt, s', events) /\
    numbers (transactionStore s') = [1; 2; 3] /\
    lastKnownTransaction s'
    = Some (mkTransaction 3 1003 "ledgerTimeHash" "anchorFileHash").
Proof.
eapply (@fork_resolution_end_to_end unit (firstValidIs 3) (sampleService tt));
  reflexivity.
Defined.

(** C6, as stated, fails: with an upstream that finds no valid checkpoint,
    the cycle that received the reorg signal ends normally, writes no error
    to the console and leaves the engine as it was. *)
Lemma no_valid_checkpoint_counterexample :
  let run := processTransactions fetchReorg firstValidNone 5 (sampleService tt) in
  fst (fst run) = Returned tt /\
  snd (fst run) = sampleService tt /\
  existsb isFirstValid (snd run) = true /\
  existsb isConsoleError (snd run) = false /\
  RevertInvalidTransactions firstValidNone (sampleService tt)
  = (Returned tt, sampleService tt,
     [FirstValidRequest (map sampleTransaction [5; 4; 2])
        (inr (mkResponse NotFound None))]).
Proof.
vm_compute. repeat split.
Qed.

Lemma no_valid_checkpoint_is_noop_witness :
  RevertInvalidTransactions firstValidNone (sampleService tt)
  = (Returned tt, sampleService tt,
     [FirstValidRequest (map sampleTransaction [5; 4; 2])
        (inr (mkResponse NotFound None))]).
Proof.
apply (@no_valid_checkpoint_is_noop unit firstValidNone (sampleService tt)
         (mkResponse NotFound None) tt); [reflexivity | discriminate].
Defined.

Lemma lastKnownTransaction_follows_log_witness :
  (exists s1,
      ingest (sampleTransaction 6) (sampleService tt) = (Returned tt, s1, []) /\
      lastKnownTransaction s1 = Some (sampleTransaction 6)) /\
  (exists s2 events,
      RevertInvalidTransactions firstValidSecond (sampleService tt)
      = (Returned tt, s2, events) /\
      transactionStore s2 = map sampleTransaction [1; 2; 3; 4] /\
      lastKnownTransaction s2 = getLastTransaction (transactionStore s2)).
Proof.
destruct (@lastKnownTransaction_follows_log unit firstValidSecond (sampleService tt))
  as [Hadd Hcut].
split.
- destruct (Hadd (sampleTransaction 6)) as (s1 & E & _ & Hlast).
  exists s1. split; [exact E|]. rewrite Hlast. injection E as <-. reflexivity.
- apply (Hcut (map CallAddTransaction sampleLog)
              (mkResponse Succeeded (Some (sampleTransaction 4))) tt (sampleTransaction 4));
    try reflexivity.
  vm_compute. tauto.
Defined.

(** C5, as stated, fails: the first fetch of the cycle is answered with the
    reorg signal; fork resolution runs and the log is truncated, but the
    loop does not go on: the cycle sends no second fetch. *)
Lemma reorg_does_not_resume_counterexample :
  let run := processTransactions fetchReorg firstValidSecond 10 (sampleService tt) in
  fst (fst run) = Returned tt /\
  upstreamCalls (snd run)
  = [FetchRequest (Some 5) (Some "timeHash"%string) (inr reorgSignal);
     FirstValidRequest (map sampleTransaction [5; 4; 2])
       (inr (mkResponse Succeeded (Some (sampleTransaction 4))))] /\
  numbers (transactionStore (snd (fst run))) = [1; 2; 3; 4] /\
  existsb isConsoleError (snd run) = false.
Proof.
vm_compute. repeat split.
Qed.

Lemma reorg_signal_runs_fork_resolution_witness :
  (exists events,
      fetchAndProcess fetchReorg firstValidNone false true (sampleService tt)
      = (Returned (true, true), sampleService tt, events) /\
      upstreamCalls events
      = [FetchRequest (Some 5) (Some "timeHash"%string) (inr reorgSignal);
         FirstValidRequest (map sampleTransaction [5; 4; 2])
           (inr (mkResponse NotFound None))]) /\
  (exists s' events,
      fetchAndProcess fetchReorg firstValidSecond false false (sampleService tt)
      = (Returned (true, false), s', events) /\
      upstreamCalls events
      = [FetchRequest (Some 5) (Some "timeHash"%string) (inr reorgSignal);
         FirstValidRequest (map sampleTransaction [5; 4; 2])
           (inr (mkResponse Succeeded (Some (sampleTransaction 4))))] /\
      doWhile fetchReorg firstValidSecond 1 false false (sampleService tt)
      = (Returned tt, s', events ++ []) /\
      length (filter isFetch
                (snd (doWhile fetchReorg firstValidSecond 1 false false
                        (sampleService tt)))) = 1%nat /\
      lastKnownTransaction s' = Some (sampleTransaction 4)).
Proof.
split.
- destruct (@reorg_signal_runs_fork_resolution unit fetchReorg firstValidNone
              0%nat false true (sampleService tt) reorgSignal tt eq_refl eq_refl)
    as (Hcalls & _ & _ & Hnone & _).
  specialize (Hnone (mkResponse NotFound None) tt eq_refl).
  eexists. split; [apply Hnone; discriminate|].
  rewrite Hnone in Hcalls by discriminate. exact Hcalls.
- destruct (@reorg_signal_runs_fork_resolution unit fetchReorg firstValidSecond
              0%nat false false (sampleService tt) reorgSignal tt eq_refl eq_refl)
    as (_ & _ & Hone & _ & Hok).
  destruct (Hok (mkResponse Succeeded (Some (sampleTransaction 4))) tt
              (sampleTransaction 4) (map CallAddTransaction sampleLog))
    as (s' & events & HB & Hcalls & Hloop & _ & _ & Hlast & _);
    try reflexivity; [vm_compute; tauto|].
  exists s', events. split; [exact HB|]. split; [exact Hcalls|]. split; [exact Hloop|].
  split; [apply Hone; reflexivity | exact Hlast].
Defined.

Lemma reorganization_flag_is_sticky_witness :
  let run := processTransactions fetchScripted firstValidSecond 10
               (sampleService sampleScript) in
  fst (fst run) = Returned tt /\
  map isFetch (upstreamCalls (snd run))
  = [true; true; false; true; false; true; false] /\
  fetchThenFirstValid true (upstreamCalls (sinceReorgSignal (snd run))) = true.
Proof.
destruct (@reorganization_flag_is_sticky _ fetchScripted firstValidSecond 10
            (sampleService sampleScript)) as (_ & _ & H & _).
split; [reflexivity|]. split; [reflexivity|].
apply H; reflexivity.
Defined.

(** * Further properties of the store *)

Unset Implicit Arguments.

Lemma checkpoint_at (transactions : list Transaction) :
  (0 < length transactions)%nat ->
  forall i,
    nth_error (getExponentiallySpacedTransactions transactions) i
    = if (i <=? Nat.log2 (length transactions))%nat
      then nth_error transactions (length transactions - 2 ^ i)
      else None.
Proof.
intros Hn i.
pose proof (@checkpoints_rounds transactions Hn) as H.
apply (f_equal (fun l => nth_error l i)) in H.
rewrite !nth_error_map, nth_error_seq in H.
destruct (Nat.leb_spec i (Nat.log2 (length transactions))) as [Hle|Hgt].
- destruct (Nat.ltb_spec i (S (Nat.log2 (length transactions)))) as [_|]; [|lia].
  cbn [option_map Nat.add] in H.
  assert (Hpow : (2 ^ i <= length transactions)%nat)
    by (apply Nat.log2_le_pow2; assumption).
  assert (Hpos : (0 < 2 ^ i)%nat) by (apply Nat.neq_0_lt_0, Nat.pow_nonzero; lia).
  destruct (nth_error transactions (length transactions - 2 ^ i)) as [t|] eqn:Ht.
  + destruct (nth_error (getExponentiallySpacedTransactions transactions) i);
      cbn [option_map] in H; congruence.
  + apply nth_error_None in Ht. lia.
- destruct (Nat.ltb_spec i (S (Nat.log2 (length transactions)))) as [|_]; [lia|].
  destruct (nth_error (getExponentiallySpacedTransactions transactions) i);
    cbn [option_map] in H; congruence.
Qed.

Lemma strictlyIncreasing_index (transactions : list Transaction) a b t :
  strictlyIncreasing (numbers transactions) ->
  nth_error transactions a = Some t -> nth_error transactions b = Some t -> a = b.
Proof.
intros Hinc Ha Hb.
assert (Hnum : forall k x, nth_error transactions k = Some x ->
                 nth_error (numbers transactions) k = Some (transactionNumber x))
  by (intros k x Hx; unfold numbers; rewrite nth_error_map, Hx; reflexivity).
destruct (Nat.lt_trichotomy a b) as [H|[H|H]]; [|exact H|].
- pose proof (strictlyIncreasing_nth Hinc H (Hnum _ _ Ha) (Hnum _ _ Hb)). lia.
- pose proof (strictlyIncreasing_nth Hinc H (Hnum _ _ Hb) (Hnum _ _ Ha)). lia.
Qed.

(** X1. The first checkpoint is the newest transaction: the head of
    [getExponentiallySpacedTransactions()] is what [getLastTransaction()]
    returns, and both are missing exactly on the empty log. *)
Theorem checkpoints_start_at_newest :
  forall (transactions : list Transaction),
    hd_error (getExponentiallySpacedTransactions transactions)
    = getLastTransaction transactions.
Proof.
intros transactions. destruct transactions as [|a l] eqn:E; [reflexivity|].
rewrite <- E.
assert (Hn : (0 < length transactions)%nat) by (rewrite E; simpl; lia).
pose proof (checkpoint_at transactions Hn 0%nat) as H. cbn [Nat.leb Nat.pow] in H.
replace (hd_error (getExponentiallySpacedTransactions transactions))
  with (nth_error (getExponentiallySpacedTransactions transactions) 0)
  by (destruct (getExponentiallySpacedTransactions transactions); reflexivity).
rewrite H. unfold getLastTransaction.
destruct (Z.eqb_spec (Z.of_nat (length transactions)) 0) as [H0|_]; [lia|].
f_equal. lia.
Qed.

(** X2. On a log with strictly increasing numbers, the checkpoints are
    stored transactions listed strictly newest first: a later checkpoint
    has a strictly smaller number than an earlier one. *)
Theorem checkpoints_newest_first :
  forall (transactions : list Transaction),
    strictlyIncreasing (numbers transactions) ->
    (forall c, In c (getExponentiallySpacedTransactions transactions) ->
               In c transactions) /\
    (forall i j ci cj,
        (i < j)%nat ->
        nth_error (getExponentiallySpacedTransactions transactions) i = Some ci ->
        nth_error (getExponentiallySpacedTransactions transactions) j = Some cj ->
        transactionNumber cj < transactionNumber ci).
Proof.
intros transactions Hinc. split; [intros c; apply checkpoints_stored|].
intros i j ci cj Hij Hi Hj.
destruct transactions as [|a l] eqn:E; [destruct i; discriminate|]. rewrite <- E in *.
assert (Hn : (0 < length transactions)%nat) by (rewrite E; simpl; lia).
rewrite (checkpoint_at transactions Hn) in Hi, Hj.
destruct (Nat.leb_spec i (Nat.log2 (length transactions))) as [Hli|]; [|discriminate].
destruct (Nat.leb_spec j (Nat.log2 (length transactions))) as [Hlj|]; [|discriminate].
assert (Hpj : (2 ^ j <= length transactions)%nat) by (apply Nat.log2_le_pow2; assumption).
assert (Hpij : (2 ^ i < 2 ^ j)%nat) by (apply Nat.pow_lt_mono_r; lia).
assert (Hnum : forall k x, nth_error transactions k = Some x ->
                 nth_error (numbers transactions) k = Some (transactionNumber x))
  by (intros k x Hx; unfold numbers; rewrite nth_error_map, Hx; reflexivity).
apply (strictlyIncreasing_nth Hinc (i := (length transactions - 2 ^ j)%nat)
         (j := (length transactions - 2 ^ i)%nat)); [lia | apply Hnum, Hj | apply Hnum, Hi].
Qed.

Lemma checkpoints_newest_first_witness :
  transactionNumber (sampleTransaction 2) < transactionNumber (sampleTransaction 5).
Proof.
destruct (@checkpoints_newest_first sampleLog) as [_ H]; [reflexivity|].
apply (H 0%nat 2%nat); [lia | reflexivity | reflexivity].
Defined.

(** X3. The oldest stored transaction (index 0) is among the checkpoints
    exactly when the size of the log is a power of two; for every other
    size the sampling stops short of the start of the log. *)
Theorem genesis_checkpoint_iff_power_of_two :
  forall (transactions : list Transaction) (genesis : Transaction),
    strictlyIncreasing (numbers transactions) ->
    nth_error transactions 0 = Some genesis ->
    (In genesis (getExponentiallySpacedTransactions transactions) <->
     exists k, length transactions = (2 ^ k)%nat).
Proof.
intros transactions genesis Hinc Hg.
assert (Hn : (0 < length transactions)%nat)
  by (destruct transactions; [discriminate | simpl; lia]).
split.
- intros Hin. apply In_nth_error in Hin. destruct Hin as [i Hi].
  rewrite (checkpoint_at transactions Hn) in Hi.
  destruct (Nat.leb_spec i (Nat.log2 (length transactions))) as [Hli|]; [|discriminate].
  assert (Hp : (2 ^ i <= length transactions)%nat) by (apply Nat.log2_le_pow2; assumption).
  pose proof (strictlyIncreasing_index transactions _ _ _ Hinc Hi Hg) as H0.
  exists i. lia.
- intros [k Hk]. apply nth_error_In with k. rewrite (checkpoint_at transactions Hn).
  assert (Hlog : Nat.log2 (length transactions) = k)
    by (rewrite Hk; apply Nat.log2_pow2; lia).
  rewrite Hlog, Nat.leb_refl, <- Hk, Nat.sub_diag. exact Hg.
Qed.

Lemma genesis_checkpoint_iff_power_of_two_witness :
  In (sampleTransaction 1)
     (getExponentiallySpacedTransactions (map sampleTransaction [1; 2; 3; 4])) /\
  ~ In (sampleTransaction 1) (getExponentiallySpacedTransactions sampleLog).
Proof.
split.
- apply (@genesis_checkpoint_iff_power_of_two (map sampleTransaction [1; 2; 3; 4]));
    [reflexivity | reflexivity | exists 2%nat; reflexivity].
- intros Hin.
  apply (@genesis_checkpoint_iff_power_of_two sampleLog) in Hin;
    [|reflexivity|reflexivity].
  destruct Hin as [k Hk]. simpl in Hk.
  destruct k as [|[|[|k]]]; try discriminate.
  assert (8 <= 2 ^ S (S (S k)))%nat.
  { change 8%nat with (2 ^ 3)%nat. apply Nat.pow_le_mono_r; lia. }
  lia.
Defined.

(** X4. Whatever the log (ordered or not), a call
    [removeTransactionsLaterThan(n)] that does not throw keeps a non-empty
    prefix of the log whose last transaction has number [n], and the count
    it prints in `Reverting ... transactions...` is the number of
    transactions it dropped. *)
Theorem removeTransactionsLaterThan_drops_suffix :
  forall (transactions : list Transaction) (n : Z)
         (printed : list Message) (transactions' : list Transaction),
    removeTransactionsLaterThan (Some n) transactions = inr (printed, transactions') ->
    exists kept t dropped,
      transactions' = kept ++ [t] /\
      transactionNumber t = n /\
      transactions = transactions' ++ dropped /\
      printed = [Reverting (Z.of_nat (length dropped))].
Proof.
intros transactions n printed transactions' H.
unfold removeTransactionsLaterThan in H.
destruct (SortedArray.binarySearch transactions n compareTransactionAndTransactionNumber)
  as [i|] eqn:E; [|discriminate].
apply locate_sound in E. destruct E as (Hi & t & Ht & Hn).
injection H as <- <-.
replace (Z.to_nat (i + 1)) with (S (Z.to_nat i)) by lia.
assert (Hlen : (Z.to_nat i < length transactions)%nat)
  by (apply nth_error_Some; rewrite Ht; discriminate).
exists (firstn (Z.to_nat i) transactions), t, (skipn (S (Z.to_nat i)) transactions).
split; [apply firstn_S_snoc; exact Ht|]. split; [exact Hn|].
split; [symmetry; apply firstn_skipn|].
rewrite length_skipn. do 2 f_equal. lia.
Qed.

Lemma removeTransactionsLaterThan_drops_suffix_witness :
  exists kept t dropped,
    map sampleTransaction [1; 2; 3] = kept ++ [t] /\
    transactionNumber t = 3 /\
    sampleLog = map sampleTransaction [1; 2; 3] ++ dropped /\
    [Reverting 2] = [Reverting (Z.of_nat (length dropped))].
Proof.
apply (removeTransactionsLaterThan_drops_suffix sampleLog 3). reflexivity.
Defined.

(** X5. Appending and then truncating to the previous tail is a round
    trip: on a strictly increasing log whose newest number is below [t]'s,
    [addTransaction(t)] followed by
    [removeTransactionsLaterThan(newest.transactionNumber)] gives back the
    log, reverting one transaction. *)
Theorem append_then_truncate :
  forall (transactions : list Transaction) (newest t : Transaction),
    strictlyIncreasing (numbers transactions) ->
    getLastTransaction transactions = Some newest ->
    transactionNumber newest < transactionNumber t ->
    removeTransactionsLaterThan (Some (transactionNumber newest))
      (addTransaction t transactions)
    = inr ([Reverting 1], transactions).
Proof.
intros transactions newest t Hinc Hlast Hlt.
pose proof (@addTransaction_increasing t transactions Hinc) as Hinc'.
unfold addTransaction in *. rewrite Hlast in *.
destruct (Z.geb_spec (transactionNumber newest) (transactionNumber t)); [lia|].
pose proof (getLastTransaction_inv transactions) as Hinv. rewrite Hlast in Hinv.
destruct Hinv as [l E].
assert (Hk : nth_error (transactions ++ [t]) (length l) = Some newest).
{ rewrite E, <- app_assoc. rewrite nth_error_app2 by lia.
  rewrite Nat.sub_diag. reflexivity. }
rewrite (removeTransactionsLaterThan_stored _ _ Hinc' Hk).
f_equal. f_equal.
- rewrite length_app, E, length_app. simpl. do 2 f_equal. lia.
- replace (S (length l)) with (length transactions)
    by (rewrite E, length_app; simpl; lia).
  rewrite firstn_app, Nat.sub_diag, firstn_all. simpl. apply app_nil_r.
Qed.

Lemma append_then_truncate_witness :
  removeTransactionsLaterThan (Some 5) (addTransaction (sampleTransaction 6) sampleLog)
  = inr ([Reverting 1], sampleLog).
Proof.
apply (append_then_truncate sampleLog (sampleTransaction 5) (sampleTransaction 6));
  [reflexivity | reflexivity | simpl; lia].
Defined.

(** X6. Truncation is idempotent: on a strictly increasing log, after a
    successful [removeTransactionsLaterThan(n)] a second call with the same
    [n] succeeds too, reverts zero transactions and leaves the log as the
    first call left it. *)
Theorem removeTransactionsLaterThan_twice :
  forall (transactions : list Transaction) (n : Z)
         (printed : list Message) (transactions' : list Transaction),
    strictlyIncreasing (numbers transactions) ->
    removeTransactionsLaterThan (Some n) transactions = inr (printed, transactions') ->
    removeTransactionsLaterThan (Some n) transactions'
    = inr ([Reverting 0], transactions').
Proof.
intros transactions n printed transactions' Hinc H.
unfold removeTransactionsLaterThan in H.
destruct (SortedArray.binarySearch transactions n compareTransactionAndTransactionNumber)
  as [i|] eqn:E; [|discriminate].
apply locate_sound in E. destruct E as (Hi & t & Ht & Hn).
injection H as _ <-. subst n.
replace (Z.to_nat (i + 1)) with (S (Z.to_nat i)) by lia.
set (k := Z.to_nat i) in *.
assert (Hlen : (k < length transactions)%nat)
  by (apply nth_error_Some; rewrite Ht; discriminate).
assert (Hinc' : strictlyIncreasing (numbers (firstn (S k) transactions)))
  by (unfold numbers; rewrite <- firstn_map; apply strictlyIncreasing_firstn, Hinc).
assert (Hk : nth_error (firstn (S k) transactions) k = Some t).
{ rewrite nth_error_firstn. destruct (Nat.ltb_spec k (S k)); [exact Ht | lia]. }
rewrite (removeTransactionsLaterThan_stored _ _ Hinc' Hk).
assert (Hl : length (firstn (S k) transactions) = S k)
  by (rewrite length_firstn; lia).
f_equal. f_equal.
- rewrite Hl. do 2 f_equal. lia.
- rewrite <- Hl at 1. apply firstn_all.
Qed.

Lemma removeTransactionsLaterThan_twice_witness :
  removeTransactionsLaterThan (Some 3) (map sampleTransaction [1; 2; 3])
  = inr ([Reverting 0], map sampleTransaction [1; 2; 3]).
Proof.
apply (removeTransactionsLaterThan_twice sampleLog 3 [Reverting 2]); reflexivity.
Defined.

Lemma addTransactions_app page1 page2 transactions :
  addTransactions (page1 ++ page2) transactions
  = addTransactions page2 (addTransactions page1 transactions).
Proof. apply fold_left_app. Qed.

(** Adding never removes or changes what is stored. *)
Lemma addTransactions_extends page : forall transactions,
  exists appended, addTransactions page transactions = transactions ++ appended.
Proof.
induction page as [|t page IH]; intros transactions.
- exists []. symmetry. apply app_nil_r.
- cbn [addTransactions fold_left]. fold (addTransactions page (addTransaction t transactions)).
  destruct (IH (addTransaction t transactions)) as [appended E]. rewrite E.
  unfold addTransaction. destruct (getLastTransaction transactions) as [l|];
    [destruct (_ >=? _)|]; rewrite <- ?app_assoc; eexists; reflexivity.
Qed.

(** A page that continues the log in strictly increasing order is appended
    whole. *)
Lemma addTransactions_fresh page : forall transactions,
  strictlyIncreasing (numbers (transactions ++ page)) ->
  addTransactions page transactions = transactions ++ page.
Proof.
induction page as [|t page IH]; intros transactions Hinc.
- symmetry. apply app_nil_r.
- cbn [addTransactions fold_left]. fold (addTransactions page (addTransaction t transactions)).
  assert (Hadd : addTransaction t transactions = transactions ++ [t]).
  { unfold addTransaction.
    pose proof (getLastTransaction_inv transactions) as Hinv.
    destruct (getLastTransaction transactions) as [l|]; [|reflexivity].
    destruct Hinv as [l' ->].
    destruct (Z.geb_spec (transactionNumber l) (transactionNumber t)) as [Hge|]; [|reflexivity].
    exfalso. unfold numbers, strictlyIncreasing in Hinc.
    rewrite !map_app in Hinc. apply increasingb_app in Hinc.
    destruct Hinc as (_ & _ & H).
    specialize (H (transactionNumber l) (transactionNumber t)).
    assert (transactionNumber l < transactionNumber t); [|lia].
    apply H; [apply in_or_app; right; left; reflexivity | left; reflexivity]. }
  rewrite Hadd, IH; rewrite <- app_assoc; [reflexivity | exact Hinc].
Qed.

(** A page already seen (no number above the newest stored one) changes
    nothing. *)
Lemma addTransactions_seen page : forall transactions newest,
  getLastTransaction transactions = Some newest ->
  (forall t, In t page -> transactionNumber t <= transactionNumber newest) ->
  addTransactions page transactions = transactions.
Proof.
induction page as [|t page IH]; intros transactions newest Hlast Hseen; [reflexivity|].
cbn [addTransactions fold_left]. fold (addTransactions page (addTransaction t transactions)).
assert (Hadd : addTransaction t transactions = transactions).
{ unfold addTransaction. rewrite Hlast.
  destruct (Z.geb_spec (transactionNumber newest) (transactionNumber t)); [reflexivity|].
  specialize (Hseen t (or_introl eq_refl)). lia. }
rewrite Hadd. apply IH with newest; [exact Hlast|].
intros t' Ht'. apply Hseen. right. exact Ht'.
Qed.


(** * Further properties of the engine *)

Section EngineExtras.
Variable Upstream : Type.
Variable handleFetchRequest :
  option Z -> option string -> Upstream ->
  (Exception + Response FetchBody) * Upstream.
Variable handleFirstValidRequest :
  list Transaction -> Upstream ->
  (Exception + Response Transaction) * Upstream.

Local Abbreviation Service := (BlockchainService Upstream).
Local Abbreviation Revert := (RevertInvalidTransactions handleFirstValidRequest).
Local Abbreviation body1 := (fetchAndProcess handleFetchRequest handleFirstValidRequest).
Local Abbreviation loop := (doWhile handleFetchRequest handleFirstValidRequest).
Local Abbreviation cycle := (processTransactions handleFetchRequest handleFirstValidRequest).
Local Abbreviation fetching :=
  (ConsoleInfo (Text "Fetching Sidetree transactions from blockchain service...")).

Ltac run_engine' :=
  cbn -[forEach ingest RevertInvalidTransactions upstreamCalls String.eqb
        getExponentiallySpacedTransactions removeTransactionsLaterThan
        addTransactions getLastTransaction addTransaction].

(** The ingestion loop over a page, in closed form. *)
Lemma forEach_ingest_eq (page : list Transaction) : forall s : Service,
  forEach page (@ingest Upstream) s
  = (Returned tt,
     match page with
     | [] => s
     | _ => mkService (requestHandler s) (continuePeriodicProcessing s)
              (addTransactions page (transactionStore s))
              (getLastTransaction (addTransactions page (transactionStore s)))
              (pollingIntervalInSeconds s)
     end, []).
Proof.
induction page as [|t page IH]; intros s; [reflexivity|].
cbn [forEach]. unfold bind at 1.
change (ingest t s) with
  (Returned tt,
   mkService (requestHandler s) (continuePeriodicProcessing s)
     (addTransaction t (transactionStore s))
     (getLastTransaction (addTransaction t (transactionStore s)))
     (pollingIntervalInSeconds s), @nil Event).
cbv iota beta. rewrite IH. destruct page; reflexivity.
Qed.

(** What fork resolution leaves alone. *)
Lemma RevertInvalidTransactions_frame (s : Service) o s' t :
  Revert s = (o, s', t) ->
  continuePeriodicProcessing s' = continuePeriodicProcessing s /\
  pollingIntervalInSeconds s' = pollingIntervalInSeconds s /\
  forallb isLoopEvent t = true /\
  (exists k, transactionStore s' = firstn k (transactionStore s)) /\
  (forall e, o = Thrown e ->
             transactionStore s' = transactionStore s /\
             lastKnownTransaction s' = lastKnownTransaction s).
Proof.
rewrite RevertInvalidTransactions_eq. cbv zeta.
assert (Hall : exists k, transactionStore s = firstn k (transactionStore s))
  by (exists (length (transactionStore s)); symmetry; apply firstn_all).
assert (Hq : forall printed, forallb isLoopEvent (map ConsoleInfo printed) = true)
  by (induction printed; [reflexivity | assumption]).
destruct (handleFirstValidRequest _ _) as [[error|r] u].
- intros H; injection H as <- <- <-. repeat split; try assumption; reflexivity.
- destruct (isSucceeded (status r)).
  + destruct (body r) as [b|].
    * destruct (removeTransactionsLaterThan _ _) as [e|[printed l]] eqn:ER;
        intros H; injection H as <- <- <-.
      -- repeat split; try assumption; reflexivity.
      -- apply removeTransactionsLaterThan_prefix in ER.
         repeat split; try assumption; try reflexivity; [apply Hq | discriminate..].
    * intros H; injection H as <- <- <-. repeat split; try assumption; reflexivity.
  + intros H; injection H as <- <- <-. repeat split; try assumption; try reflexivity;
      discriminate.
Qed.

(** Symbolic execution of one round of the loop: each path of
    [fetchAndProcess] becomes a goal about the triple it returns; the
    outcome of fork resolution, where it runs, is named [ER]. *)
Ltac exec_open :=
  unfold fetchAndProcess, fetchRequest, setRequestHandler, consoleInfo, emit,
    throw, ret, get, put;
  unfold bind at 1 2 3 4 5 6.

Ltac exec_response split_flag st bd :=
  destruct st; destruct bd as [[[|first txs] m'|code]|]; run_engine';
  try destruct (String.eqb code invalid_transaction_number_or_time_hash) eqn:Ecode;
  unfold bind; run_engine';
  try (rewrite forEach_ingest_eq; run_engine');
  split_flag; run_engine';
  try match goal with
      | |- context [RevertInvalidTransactions ?h ?st] =>
          let o3 := fresh "o3" in
          destruct (RevertInvalidTransactions h st) as [[o3 s3] t3] eqn:ER;
          destruct o3
      end;
  run_engine'.

Ltac exec_round split_flag :=
  exec_open;
  destruct (handleFetchRequest _ _ _) as [[error|[st bd]] u];
  [ run_engine' | exec_response split_flag st bd ].

Lemma fetchAndProcess_frame flag more (s : Service) o s1 t1 :
  body1 flag more s = (o, s1, t1) ->
  continuePeriodicProcessing s1 = continuePeriodicProcessing s /\
  pollingIntervalInSeconds s1 = pollingIntervalInSeconds s /\
  forallb isLoopEvent t1 = true.
Proof.
exec_round ltac:(destruct flag);
  try (apply RevertInvalidTransactions_frame in ER;
       destruct ER as (Hc & Hp & Hq & _); cbn [continuePeriodicProcessing
         pollingIntervalInSeconds] in Hc, Hp);
  intros H; injection H as <- <- <-;
  (split; [first [reflexivity | assumption]|]);
  (split; [first [reflexivity | assumption]|]);
  cbn [forallb isLoopEvent andb]; rewrite ?forallb_app, ?Hq; reflexivity.
Qed.

Lemma doWhile_frame fuel : forall flag more (s : Service) o s' t,
  loop fuel flag more s = (o, s', t) ->
  continuePeriodicProcessing s' = continuePeriodicProcessing s /\
  pollingIntervalInSeconds s' = pollingIntervalInSeconds s /\
  forallb isLoopEvent t = true.
Proof.
induction fuel as [|fuel IH]; intros flag more s o s' t.
- intros H; injection H as _ <- <-. repeat split.
- cbn [doWhile]. unfold bind at 1.
  destruct (body1 flag more s) as [[[vars|e|] s1] t1] eqn:EB;
    apply fetchAndProcess_frame in EB; destruct EB as (Hc & Hp & Hq);
    [|intros H; injection H as _ <- <-; repeat split; assumption..].
  destruct (snd vars).
  + destruct (loop fuel (fst vars) true s1) as [[o2 s2] t2] eqn:EL.
    apply IH in EL. destruct EL as (Hc2 & Hp2 & Hq2).
    intros H; injection H as _ <- <-.
    rewrite forallb_app, Hq, Hq2. repeat split; congruence.
  + intros H; injection H as _ <- <-.
    rewrite app_nil_r. repeat split; assumption.
Qed.

Lemma loopEvents_quiet t :
  forallb isLoopEvent t = true ->
  filter isSetTimeout t = [] /\ existsb isConsoleError t = false.
Proof.
induction t as [|e t IH]; [intros _; split; reflexivity|].
cbn [forallb filter existsb]. intros H. apply andb_true_iff in H.
destruct H as [He Ht]. destruct (IH Ht) as [-> ->].
destruct e; try discriminate; split; reflexivity.
Qed.

(** X7. A cycle never throws: whatever the upstream answers, an exception
    raised in the loop (a rejected request, a malformed body, an unknown
    truncation boundary) is caught, written to the console at error level
    and leaves the engine as it was when it was raised; and nothing is
    written at error level when the loop ends without an exception. *)
Theorem processTransactions_never_throws :
  forall (fuel : nat) (s : Service),
    (forall e, fst (fst (cycle fuel s)) <> Thrown e) /\
    match fst (fst (loop fuel false false s)) with
    | Thrown e =>
        fst (fst (cycle fuel s)) = Returned tt /\
        In (ConsoleError (Caught e)) (snd (cycle fuel s)) /\
        snd (fst (cycle fuel s)) = snd (fst (loop fuel false false s))
    | _ => existsb isConsoleError (snd (cycle fuel s)) = false
    end.
Proof.
intros fuel s. rewrite processTransactions_eq.
destruct (loop fuel false false s) as [[[a|e|] s1] t1] eqn:EL; cbn [fst snd];
  apply doWhile_frame in EL; destruct EL as (_ & _ & Hq);
  apply loopEvents_quiet in Hq; destruct Hq as [_ Hq].
- split; [discriminate|]. rewrite existsb_app, Hq.
  destruct (continuePeriodicProcessing s1); reflexivity.
- split; [discriminate|]. split; [reflexivity|]. split; [|reflexivity].
  apply in_or_app. right. right. left. reflexivity.
- split; [discriminate|]. exact Hq.
Qed.

(** X8. A cycle that ends schedules the next one exactly when the engine
    is marked running: with [continuePeriodicProcessing] it sets one timer,
    of [pollingIntervalInSeconds * 1000] milliseconds; without, none.  The
    cycle itself changes neither the flag nor the interval. *)
Theorem processTransactions_schedules_when_running :
  forall (fuel : nat) (s : Service),
    fst (fst (cycle fuel s)) = Returned tt ->
    filter isSetTimeout (snd (cycle fuel s))
    = (if continuePeriodicProcessing s
       then [SetTimeout (pollingIntervalInSeconds s * 1000)]
       else []) /\
    continuePeriodicProcessing (snd (fst (cycle fuel s))) = continuePeriodicProcessing s /\
    pollingIntervalInSeconds (snd (fst (cycle fuel s))) = pollingIntervalInSeconds s.
Proof.
intros fuel s. rewrite processTransactions_eq.
destruct (loop fuel false false s) as [[[a|e|] s1] t1] eqn:EL; cbn [fst snd];
  [| |discriminate]; intros _;
  apply doWhile_frame in EL; destruct EL as (Hc & Hp & Hq);
  apply loopEvents_quiet in Hq; destruct Hq as [Hq _];
  rewrite filter_app, Hq, Hc, Hp;
  (split; [destruct (continuePeriodicProcessing s); reflexivity | split; reflexivity]).
Qed.

(** X9. Stopping and starting take effect at the scheduling boundary:
    a cycle run after [stopPeriodicProcessing()] sets no timer, and the
    callback that [startPeriodicProcessing()] hands to [setImmediate] marks
    the engine running, so that its cycle, when it ends, sets exactly one
    timer. *)
Theorem stop_and_start_scheduling :
  forall (fuel : nat) (s : Service),
    filter isSetTimeout
      (snd (bind (@stopPeriodicProcessing Upstream) (fun _ => cycle fuel) s)) = [] /\
    (fst (fst (immediateCallback handleFetchRequest handleFirstValidRequest fuel s))
     = Returned tt ->
     filter isSetTimeout
       (snd (immediateCallback handleFetchRequest handleFirstValidRequest fuel s))
     = [SetTimeout (pollingIntervalInSeconds s * 1000)]).
Proof.
intros fuel s.
assert (Hcycle : forall s0 : Service,
           filter isSetTimeout (snd (cycle fuel s0))
           = match fst (fst (cycle fuel s0)) with
             | Returned _ =>
                 if continuePeriodicProcessing s0
                 then [SetTimeout (pollingIntervalInSeconds s0 * 1000)] else []
             | _ => []
             end).
{ intros s0. rewrite processTransactions_eq.
  destruct (loop fuel false false s0) as [[[a|e|] s1] t1] eqn:EL; cbn [fst snd];
    apply doWhile_frame in EL; destruct EL as (Hc & Hp & Hq);
    apply loopEvents_quiet in Hq; destruct Hq as [Hq _];
    rewrite ?filter_app, Hq, ?Hc, ?Hp;
    try (destruct (continuePeriodicProcessing s0); reflexivity); reflexivity. }
split.
- unfold stopPeriodicProcessing, setContinuePeriodicProcessing, consoleInfo, emit, get, put.
  unfold bind at 1 2 3. cbn -[processTransactions].
  match goal with
  | |- context [processTransactions ?a ?b ?c ?st] =>
      pose proof (Hcycle st) as H;
      destruct (processTransactions a b c st) as [[o1 s1] t1]
  end.
  cbn [fst snd continuePeriodicProcessing] in H.
  destruct o1; cbn [fst snd app filter isSetTimeout]; exact H.
- unfold immediateCallback, setContinuePeriodicProcessing, get, put.
  unfold bind at 1 2. cbn -[processTransactions].
  match goal with
  | |- context [processTransactions ?a ?b ?c ?st] =>
      pose proof (Hcycle st) as H;
      destruct (processTransactions a b c st) as [[o1 s1] t1]
  end.
  cbn [fst snd continuePeriodicProcessing pollingIntervalInSeconds] in H.
  destruct o1; cbn [fst snd app]; intros Ho; try discriminate. exact H.
Qed.

Lemma firstFetchReference_round fuel flag more (s : Service) :
  firstFetchReference (snd (loop (S fuel) flag more s))
  = Some (referenceOf (lastKnownTransaction s)).
Proof.
destruct (doWhile_first_fetch handleFetchRequest handleFirstValidRequest
            fuel flag more s) as (result & rest & E).
rewrite E. cbn [firstFetchReference]. destruct (lastKnownTransaction s); reflexivity.
Qed.

Lemma firstFetchReference_cycle fuel (s : Service) :
  firstFetchReference (snd (cycle (S fuel) s))
  = Some (referenceOf (lastKnownTransaction s)).
Proof.
pose proof (firstFetchReference_round fuel false false s) as H.
destruct (doWhile_first_fetch handleFetchRequest handleFirstValidRequest
            fuel false false s) as (result & rest & E).
rewrite processTransactions_eq.
destruct (loop (S fuel) false false s) as [[[a|e|] s1] t1]; cbn [fst snd] in *;
  rewrite E in *; exact H.
Qed.

(** X10. Starting seeds the reference from the store: after
    [startPeriodicProcessing()], the first fetch of the first cycle asks
    for what follows the newest stored transaction (its number and time
    hash), whatever [lastKnownTransaction] held before, and for everything
    ([undefined], [undefined]) when the store is empty. *)
Theorem start_fetches_after_stored_tail :
  forall (fuel : nat) (s : Service),
    firstFetchReference
      (snd (bind (@startPeriodicProcessing Upstream)
              (fun _ => immediateCallback handleFetchRequest handleFirstValidRequest
                          (S fuel)) s))
    = Some (referenceOf (getLastTransaction (transactionStore s))) /\
    (transactionStore s = [] ->
     firstFetchReference
       (snd (bind (@startPeriodicProcessing Upstream)
               (fun _ => immediateCallback handleFetchRequest handleFirstValidRequest
                           (S fuel)) s))
     = Some (None, None)).
Proof.
intros fuel s.
assert (H : firstFetchReference
      (snd (bind (@startPeriodicProcessing Upstream)
              (fun _ => immediateCallback handleFetchRequest handleFirstValidRequest
                          (S fuel)) s))
    = Some (referenceOf (getLastTransaction (transactionStore s)))).
{ unfold startPeriodicProcessing, immediateCallback, setLastKnownTransaction,
    setContinuePeriodicProcessing, consoleInfo, emit, get, put.
  unfold bind at 1 2 3 4 5 6 7. cbn -[processTransactions getLastTransaction].
  match goal with
  | |- context [processTransactions ?a ?b ?c ?st] =>
      pose proof (firstFetchReference_cycle fuel st) as H;
      destruct (processTransactions a b c st) as [[o1 s1] t1]
  end.
  cbn [fst snd lastKnownTransaction] in *.
  destruct o1; cbn [snd app firstFetchReference]; exact H. }
split; [exact H|]. intros E. rewrite H, E. reflexivity.
Qed.

Lemma filter_isFetch_upstreamCalls t :
  filter isFetch (upstreamCalls t) = filter isFetch t.
Proof.
induction t as [|e t IH]; [reflexivity|].
unfold upstreamCalls in *. cbn [filter].
destruct (isFetch e) eqn:Ef; destruct (isFirstValid e) eqn:Ev;
  cbn [orb filter]; rewrite ?Ef, IH; reflexivity.
Qed.

(** A round whose fetch is not answered with [Succeeded] sends one fetch
    and leaves [moreTransactions] as it was. *)
Lemma fetchAndProcess_not_succeeded flag more (s : Service) result u o s1 t1 :
  handleFetchRequest (fst (referenceOf (lastKnownTransaction s)))
    (snd (referenceOf (lastKnownTransaction s))) (requestHandler s) = (result, u) ->
  (forall r, result = inr r -> status r <> Succeeded) ->
  body1 flag more s = (o, s1, t1) ->
  length (filter isFetch t1) = 1%nat /\
  o <> OutOfFuel /\
  (forall vars, o = Returned vars -> snd vars = more).
Proof.
intros Hfetch Hns HB.
assert (Hone : length (filter isFetch t1) = 1%nat /\ o <> OutOfFuel).
{ apply fetchAndProcess_calls in HB.
  destruct HB as (f & Hf & [(Hc & _ & Ho) | (v & Hv & Hc & _ & Ho)]);
    rewrite <- filter_isFetch_upstreamCalls, Hc; cbn [filter]; rewrite Hf.
  - split; [reflexivity|]. intros ->. exact Ho.
  - assert (isFetch v = false) as -> by (destruct v; try discriminate; reflexivity).
    split; [reflexivity|]. intros ->. exact Ho. }
destruct Hone as [H1 H2]. split; [exact H1|]. split; [exact H2|].
revert HB. exec_open.
replace (match lastKnownTransaction s with
         | Some t => Some (transactionNumber t) | None => None end)
  with (fst (referenceOf (lastKnownTransaction s)))
  by (destruct (lastKnownTransaction s); reflexivity).
replace (match lastKnownTransaction s with
         | Some t => Some (transactionTimeHash t) | None => None end)
  with (snd (referenceOf (lastKnownTransaction s)))
  by (destruct (lastKnownTransaction s); reflexivity).
rewrite Hfetch.
destruct result as [error|[st bd]];
  [ run_engine'
  | assert (Hst : st <> Succeeded) by (apply (Hns _ eq_refl));
    exec_response ltac:(destruct flag) st bd ];
  try congruence;
  intros H vars Hv; injection H as <- _ _; try discriminate;
  injection Hv as <-; reflexivity.
Qed.

(** X11. A cycle whose first fetch is not answered with [Succeeded] (a
    rejected request, an error status, the reorg signal) sends that one
    fetch only and ends: [moreTransactions] starts false and only a
    [Succeeded] answer can set it. *)
Theorem failed_first_fetch_ends_cycle :
  forall (fuel : nat) (s : Service)
         (result : Exception + Response FetchBody) (u : Upstream),
    handleFetchRequest (fst (referenceOf (lastKnownTransaction s)))
      (snd (referenceOf (lastKnownTransaction s))) (requestHandler s) = (result, u) ->
    (forall r, result = inr r -> status r <> Succeeded) ->
    fst (fst (cycle (S fuel) s)) = Returned tt /\
    length (filter isFetch (snd (cycle (S fuel) s))) = 1%nat.
Proof.
intros fuel s result u Hfetch Hns. rewrite processTransactions_eq.
destruct (loop (S fuel) false false s) as [[o s'] t] eqn:EL.
cbn [doWhile] in EL. unfold bind at 1 in EL.
destruct (body1 false false s) as [[o1 s1] t1] eqn:EB.
destruct (fetchAndProcess_not_succeeded _ _ _ _ _ _ _ _ Hfetch Hns EB) as (H1 & H2 & H3).
assert (Htail : forall b : bool,
           filter isFetch (if b then [ConsoleInfo (Waiting (pollingIntervalInSeconds s'));
                                      SetTimeout (pollingIntervalInSeconds s' * 1000)]
                           else []) = [])
  by (intros [|]; reflexivity).
destruct o1 as [vars|e|]; [|injection EL as <- <- <-|congruence].
- rewrite (H3 vars eq_refl) in EL. unfold ret in EL. injection EL as <- <- <-.
  cbn [fst snd]. rewrite app_nil_r, filter_app, Htail, app_nil_r.
  split; [reflexivity | exact H1].
- cbn [fst snd]. split; [reflexivity|]. rewrite filter_app. cbn [filter isFetch].
  rewrite Htail, app_nil_r. exact H1.
Qed.

Ltac fold_reference s :=
  replace (match lastKnownTransaction s with
           | Some t => Some (transactionNumber t) | None => None end)
    with (fst (referenceOf (lastKnownTransaction s)))
    by (destruct (lastKnownTransaction s); reflexivity);
  replace (match lastKnownTransaction s with
           | Some t => Some (transactionTimeHash t) | None => None end)
    with (snd (referenceOf (lastKnownTransaction s)))
    by (destruct (lastKnownTransaction s); reflexivity).



(** The round whose fetch is answered with an error status that is not the
    reorg signal, when no reorganization was detected before. *)
Lemma fetchAndProcess_ignored more (s : Service) r u :
  handleFetchRequest (fst (referenceOf (lastKnownTransaction s)))
    (snd (referenceOf (lastKnownTransaction s))) (requestHandler s) = (inr r, u) ->
  status r <> Succeeded ->
  isReorgSignal r = false ->
  (status r = BadRequest -> body r <> None) ->
  body1 false more s
  = (Returned (false, more),
     mkService u (continuePeriodicProcessing s) (transactionStore s)
       (lastKnownTransaction s) (pollingIntervalInSeconds s),
     [fetching;
      FetchRequest (fst (referenceOf (lastKnownTransaction s)))
        (snd (referenceOf (lastKnownTransaction s))) (inr r)]).
Proof.
intros Hfetch Hns Hsig Hbody. exec_open. fold_reference s. rewrite Hfetch.
destruct r as [st bd]. cbn [status body] in *. unfold isReorgSignal in Hsig.
cbn [status body] in Hsig.
exec_response idtac st bd; try congruence; try reflexivity;
  exfalso; apply Hbody; reflexivity.
Qed.

(** X13. A fetch answered with an error status other than the reorg signal
    ([NotFound], [ServerError], or [BadRequest] with another code) is
    ignored in silence: nothing is written at error level, no first-valid
    request is sent, the log and the cache stay as they were, and the cycle
    ends after this one fetch. *)
Theorem error_status_is_ignored :
  forall (fuel : nat) (s : Service) (r : Response FetchBody) (u : Upstream),
    handleFetchRequest (fst (referenceOf (lastKnownTransaction s)))
      (snd (referenceOf (lastKnownTransaction s))) (requestHandler s) = (inr r, u) ->
    status r <> Succeeded ->
    isReorgSignal r = false ->
    (status r = BadRequest -> body r <> None) ->
    cycle (S fuel) s
    = (Returned tt,
       mkService u (continuePeriodicProcessing s) (transactionStore s)
         (lastKnownTransaction s) (pollingIntervalInSeconds s),
       [fetching;
        FetchRequest (fst (referenceOf (lastKnownTransaction s)))
          (snd (referenceOf (lastKnownTransaction s))) (inr r)]
       ++ (if continuePeriodicProcessing s
           then [ConsoleInfo (Waiting (pollingIntervalInSeconds s));
                 SetTimeout (pollingIntervalInSeconds s * 1000)]
           else [])).
Proof.
intros fuel s r u Hfetch Hns Hsig Hbody. rewrite processTransactions_eq.
cbn [doWhile]. unfold bind at 1.
rewrite (fetchAndProcess_ignored false s r u Hfetch Hns Hsig Hbody). reflexivity.
Qed.

(** The round whose fetch is answered with a page, when no reorganization
    was detected before. *)
Lemma fetchAndProcess_page more (s : Service) r u page more' :
  handleFetchRequest (fst (referenceOf (lastKnownTransaction s)))
    (snd (referenceOf (lastKnownTransaction s))) (requestHandler s) = (inr r, u) ->
  status r = Succeeded ->
  body r = Some (TransactionsBody page more') ->
  body1 false more s
  = (Returned (false, more'),
     match page with
     | [] => mkService u (continuePeriodicProcessing s) (transactionStore s)
               (lastKnownTransaction s) (pollingIntervalInSeconds s)
     | _ => mkService u (continuePeriodicProcessing s)
              (addTransactions page (transactionStore s))
              (getLastTransaction (addTransactions page (transactionStore s)))
              (pollingIntervalInSeconds s)
     end,
     fetching
     :: FetchRequest (fst (referenceOf (lastKnownTransaction s)))
          (snd (referenceOf (lastKnownTransaction s))) (inr r)
     :: match page with
        | [] => []
        | first :: _ => [ConsoleInfo (Fetched (length page) (transactionNumber first))]
        end).
Proof.
intros Hfetch Hst Hbd. exec_open. fold_reference s. rewrite Hfetch.
destruct r as [st bd]. cbn [status body] in *. subst st bd.
run_engine'. destruct page as [|first page]; unfold bind; run_engine';
  rewrite forEach_ingest_eq; run_engine'; reflexivity.
Qed.

(** The same round entered with a reorganization already detected: the page
    is ingested in the same way, then fork resolution runs from the state
    the ingestion left. *)
Lemma fetchAndProcess_page_flagged more (s : Service) r u page more' :
  handleFetchRequest (fst (referenceOf (lastKnownTransaction s)))
    (snd (referenceOf (lastKnownTransaction s))) (requestHandler s) = (inr r, u) ->
  status r = Succeeded ->
  body r = Some (TransactionsBody page more') ->
  forall s' events,
    body1 false more s = (Returned (false, more'), s', events) ->
    body1 true more s
    = match Revert s' with
      | (Returned _, s'', t) =>
          (Returned (true, more'), s'',
           events
           ++ [ConsoleInfo (Text "Block reorganization detected.");
               ConsoleInfo (Text "Reverting invalid transactions...")]
           ++ t ++ [ConsoleInfo (Text "Completed reverting invalid transactions.")])
      | (Thrown e, s'', t) =>
          (Thrown e, s'',
           events
           ++ [ConsoleInfo (Text "Block reorganization detected.");
               ConsoleInfo (Text "Reverting invalid transactions...")]
           ++ t)
      | (OutOfFuel, s'', t) =>
          (OutOfFuel, s'',
           events
           ++ [ConsoleInfo (Text "Block reorganization detected.");
               ConsoleInfo (Text "Reverting invalid transactions...")]
           ++ t)
      end.
Proof.
intros Hfetch Hst Hbd s' events HB.
rewrite (fetchAndProcess_page more s r u page more' Hfetch Hst Hbd) in HB.
injection HB as <- <-.
exec_open. fold_reference s. rewrite Hfetch.
destruct r as [st bd]. cbn [status body] in *. subst st bd.
run_engine'. destruct page as [|first page]; unfold bind; run_engine';
  rewrite forEach_ingest_eq; run_engine';
  destruct (RevertInvalidTransactions _ _) as [[[a|e|] s3] t3]; run_engine';
  rewrite ?app_nil_r; reflexivity.
Qed.

Lemma getLastTransaction_app l page :
  page <> [] -> getLastTransaction (l ++ page) = getLastTransaction page.
Proof.
destruct page as [|t page _] using rev_ind; [congruence|]. intros _.
rewrite app_assoc, !getLastTransaction_snoc. reflexivity.
Qed.

(** X14. Pagination.  In a round entered with no reorganization detected
    ([blockReorganizationDetected] false, as in every round of a cycle
    before its first reorg signal), a [Succeeded] page that continues the
    log in strictly increasing order is appended whole,
    [lastKnownTransaction] becomes the page's last transaction (the new
    tail of the log), the loop goes on exactly when the page says
    [moreTransactions], and the next fetch asks for what follows that last
    transaction.  In a round entered with the flag set, the page is
    ingested in the same way and fork resolution then runs from the
    extended log: what the round leaves is what fork resolution leaves. *)
Theorem page_is_appended_and_followed :
  forall (fuel : nat) (more : bool) (s : Service)
         (r : Response FetchBody) (u : Upstream)
         (page : list Transaction) (more' : bool),
    handleFetchRequest (fst (referenceOf (lastKnownTransaction s)))
      (snd (referenceOf (lastKnownTransaction s))) (requestHandler s) = (inr r, u) ->
    status r = Succeeded ->
    body r = Some (TransactionsBody page more') ->
    page <> [] ->
    strictlyIncreasing (numbers (transactionStore s ++ page)) ->
    exists s' events,
      body1 false more s = (Returned (false, more'), s', events) /\
      upstreamCalls events
      = [FetchRequest (fst (referenceOf (lastKnownTransaction s)))
           (snd (referenceOf (lastKnownTransaction s))) (inr r)] /\
      transactionStore s' = transactionStore s ++ page /\
      lastKnownTransaction s' = getLastTransaction page /\
      lastKnownTransaction s' = getLastTransaction (transactionStore s') /\
      loop (S fuel) false more s
      = (if more'
         then match loop fuel false more' s' with
              | (o, s'', rest) => (o, s'', events ++ rest)
              end
         else (Returned tt, s', events ++ [])) /\
      (forall fuel' flag' more'',
          firstFetchReference (snd (loop (S fuel') flag' more'' s'))
          = Some (referenceOf (getLastTransaction page))) /\
      body1 true more s
      = match Revert s' with
        | (Returned _, s'', t) =>
            (Returned (true, more'), s'',
             events
             ++ [ConsoleInfo (Text "Block reorganization detected.");
                 ConsoleInfo (Text "Reverting invalid transactions...")]
             ++ t ++ [ConsoleInfo (Text "Completed reverting invalid transactions.")])
        | (Thrown e, s'', t) =>
            (Thrown e, s'',
             events
             ++ [ConsoleInfo (Text "Block reorganization detected.");
                 ConsoleInfo (Text "Reverting invalid transactions...")]
             ++ t)
        | (OutOfFuel, s'', t) =>
            (OutOfFuel, s'',
             events
             ++ [ConsoleInfo (Text "Block reorganization detected.");
                 ConsoleInfo (Text "Reverting invalid transactions...")]
             ++ t)
        end.
Proof.
intros fuel more s r u page more' Hfetch Hst Hbd Hne Hinc.
pose proof (fetchAndProcess_page more s r u page more' Hfetch Hst Hbd) as HB.
pose proof (fetchAndProcess_page_flagged more s r u page more' Hfetch Hst Hbd) as HF.
rewrite (addTransactions_fresh page _ Hinc) in HB.
destruct page as [|first page]; [congruence|].
do 2 eexists. split; [exact HB|].
split; [reflexivity|]. split; [reflexivity|].
split; [apply getLastTransaction_app; discriminate|]. split; [reflexivity|].
split; [|split].
- cbn [doWhile]. unfold bind at 1. rewrite HB. cbn [fst snd]. destruct more'; reflexivity.
- intros fuel' flag' more''. rewrite firstFetchReference_round.
  cbn [lastKnownTransaction]. rewrite getLastTransaction_app by discriminate. reflexivity.
- exact (HF _ _ HB).
Qed.

(** X15. Re-delivery is harmless for the engine as a whole.  In a round
    entered with no reorganization detected ([blockReorganizationDetected]
    false), a [Succeeded] page holding only transactions already seen (none
    numbered above the newest stored one) leaves the log and the cache
    exactly as they were.  In a round entered with the flag set, the
    ingestion changes nothing either, and fork resolution then runs from
    the log and the cache as they were: what the round leaves is what fork
    resolution leaves. *)
Theorem redelivered_page_is_noop :
  forall (more : bool) (s : Service) (r : Response FetchBody) (u : Upstream)
         (page : list Transaction) (more' : bool) (newest : Transaction),
    handleFetchRequest (fst (referenceOf (lastKnownTransaction s)))
      (snd (referenceOf (lastKnownTransaction s))) (requestHandler s) = (inr r, u) ->
    status r = Succeeded ->
    body r = Some (TransactionsBody page more') ->
    getLastTransaction (transactionStore s) = Some newest ->
    lastKnownTransaction s = Some newest ->
    (forall t, In t page -> transactionNumber t <= transactionNumber newest) ->
    exists s' events,
      s' = mkService u (continuePeriodicProcessing s) (transactionStore s)
             (lastKnownTransaction s) (pollingIntervalInSeconds s) /\
      body1 false more s = (Returned (false, more'), s', events) /\
      upstreamCalls events
      = [FetchRequest (fst (referenceOf (lastKnownTransaction s)))
           (snd (referenceOf (lastKnownTransaction s))) (inr r)] /\
      body1 true more s
      = match Revert s' with
        | (Returned _, s'', t) =>
            (Returned (true, more'), s'',
             events
             ++ [ConsoleInfo (Text "Block reorganization detected.");
                 ConsoleInfo (Text "Reverting invalid transactions...")]
             ++ t ++ [ConsoleInfo (Text "Completed reverting invalid transactions.")])
        | (Thrown e, s'', t) =>
            (Thrown e, s'',
             events
             ++ [ConsoleInfo (Text "Block reorganization detected.");
                 ConsoleInfo (Text "Reverting invalid transactions...")]
             ++ t)
        | (OutOfFuel, s'', t) =>
            (OutOfFuel, s'',
             events
             ++ [ConsoleInfo (Text "Block reorganization detected.");
                 ConsoleInfo (Text "Reverting invalid transactions...")]
             ++ t)
        end.
Proof.
intros more s r u page more' newest Hfetch Hst Hbd Hlast Hknown Hseen.
pose proof (fetchAndProcess_page more s r u page more' Hfetch Hst Hbd) as HB.
pose proof (fetchAndProcess_page_flagged more s r u page more' Hfetch Hst Hbd) as HF.
rewrite (addTransactions_seen page _ newest Hlast Hseen), Hlast, <- Hknown in HB.
destruct page; do 2 eexists;
  (split; [reflexivity|]); (split; [exact HB|]); (split; [reflexivity|]);
  exact (HF _ _ HB).
Qed.

(** X16. Fork resolution sends exactly one request upstream, the
    first-valid request carrying the checkpoints of the log, and is safe
    against failure: it never adds to the log (what it leaves is a prefix of
    what it found), and when it throws (a rejected request, an answer
    without body, a boundary the log does not hold) both the log and
    [lastKnownTransaction] are as they were. *)
Theorem fork_resolution_is_exception_safe :
  forall (s : Service),
    let checkpoints := getExponentiallySpacedTransactions (transactionStore s) in
    let answer := handleFirstValidRequest checkpoints (requestHandler s) in
    upstreamCalls (snd (Revert s)) = [FirstValidRequest checkpoints (fst answer)] /\
    requestHandler (snd (fst (Revert s))) = snd answer /\
    (exists k, transactionStore (snd (fst (Revert s))) = firstn k (transactionStore s)) /\
    (forall e, fst (fst (Revert s)) = Thrown e ->
               transactionStore (snd (fst (Revert s))) = transactionStore s /\
               lastKnownTransaction (snd (fst (Revert s))) = lastKnownTransaction s) /\
    fst (fst (Revert s)) <> OutOfFuel.
Proof.
intros s checkpoints answer. subst checkpoints answer.
destruct (Revert s) as [[o s'] t] eqn:ER. cbn [fst snd].
destruct (RevertInvalidTransactions_frame s o s' t ER) as (_ & _ & _ & Hk & Hthrown).
split; [|split; [|split; [exact Hk|split; [exact Hthrown|]]]];
  revert ER; rewrite RevertInvalidTransactions_eq; cbv zeta;
  destruct (handleFirstValidRequest _ _) as [[error|r] u]; cbn [fst snd];
  try destruct (isSucceeded (status r)); try destruct (body r) as [b|];
  try destruct (removeTransactionsLaterThan _ _) as [e|[printed l]];
  intros H; injection H as <- <- <-; try reflexivity; try discriminate.
unfold upstreamCalls. cbn [filter isFetch isFirstValid orb].
fold (upstreamCalls (map ConsoleInfo printed)). rewrite upstreamCalls_console. reflexivity.
Qed.


(** A round without reorganization only ingests. *)
Lemma fetchAndProcess_ingests more (s : Service) o s1 t1 :
  body1 false more s = (o, s1, t1) ->
  existsb isReorgFetch t1 = false ->
  (exists page, transactionStore s1 = addTransactions page (transactionStore s)) /\
  (lastKnownTransaction s = getLastTransaction (transactionStore s) ->
   lastKnownTransaction s1 = getLastTransaction (transactionStore s1)) /\
  (forall vars, o = Returned vars -> fst vars = false).
Proof.
exec_round idtac; intros H; injection H as <- <- <-; intros Hno;
  cbn [existsb isReorgFetch isReorgSignal status body orb] in Hno;
  try (rewrite Ecode in Hno; cbn [orb] in Hno; discriminate Hno);
  (split; [first [exists []; reflexivity | exists (first :: txs); reflexivity]|]);
  (split; [intros Hinv; first [exact Hinv | reflexivity]|]);
  intros vars Hv; try discriminate Hv; injection Hv as <-; reflexivity.
Qed.

Lemma doWhile_ingests fuel : forall more (s : Service) o s' t,
  loop fuel false more s = (o, s', t) ->
  existsb isReorgFetch t = false ->
  (exists page, transactionStore s' = addTransactions page (transactionStore s)) /\
  (lastKnownTransaction s = getLastTransaction (transactionStore s) ->
   lastKnownTransaction s' = getLastTransaction (transactionStore s')).
Proof.
induction fuel as [|fuel IH]; intros more s o s' t.
- intros H _; injection H as _ <- _. split; [exists []; reflexivity | auto].
- cbn [doWhile]. unfold bind at 1.
  destruct (body1 false more s) as [[[vars|e|] s1] t1] eqn:EB.
  + destruct (snd vars).
    * destruct (loop fuel (fst vars) true s1) as [[o2 s2] t2] eqn:EL.
      intros H Hno; injection H as _ <- <-.
      rewrite existsb_app in Hno. apply orb_false_iff in Hno. destruct Hno as [Hn1 Hn2].
      destruct (fetchAndProcess_ingests _ _ _ _ _ EB Hn1) as ([p1 E1] & I1 & Hf).
      rewrite (Hf vars eq_refl) in EL.
      destruct (IH _ _ _ _ _ EL Hn2) as ([p2 E2] & I2).
      split; [|auto]. exists (p1 ++ p2). rewrite addTransactions_app, <- E1. exact E2.
    * unfold ret. intros H Hno; injection H as _ <- <-. rewrite app_nil_r in Hno.
      destruct (fetchAndProcess_ingests _ _ _ _ _ EB Hno) as (Hp & I1 & _).
      split; assumption.
  + intros H Hno; injection H as _ <- <-.
    destruct (fetchAndProcess_ingests _ _ _ _ _ EB Hno) as (Hp & I1 & _).
    split; assumption.
  + intros H Hno; injection H as _ <- <-.
    destruct (fetchAndProcess_ingests _ _ _ _ _ EB Hno) as (Hp & I1 & _).
    split; assumption.
Qed.

(** X18. A cycle in which no fetch is answered with the reorg signal is
    append-only: the log it leaves extends the log it found, and if
    [lastKnownTransaction] was the tail of the log at the start of the cycle
    it is the tail of the log at its end, whatever the upstream sent. *)
Theorem cycle_without_reorg_only_appends :
  forall (fuel : nat) (s : Service),
    existsb isReorgFetch (snd (cycle fuel s)) = false ->
    (exists appended,
        transactionStore (snd (fst (cycle fuel s))) = transactionStore s ++ appended) /\
    (lastKnownTransaction s = getLastTransaction (transactionStore s) ->
     lastKnownTransaction (snd (fst (cycle fuel s)))
     = getLastTransaction (transactionStore (snd (fst (cycle fuel s))))).
Proof.
intros fuel s. rewrite processTransactions_eq.
destruct (loop fuel false false s) as [[[a|e|] s1] t1] eqn:EL; cbn [fst snd];
  intros Hno; try rewrite existsb_app in Hno;
  try (apply orb_false_iff in Hno; destruct Hno as [Hno _]);
  destruct (doWhile_ingests _ _ _ _ _ _ EL Hno) as ([page E] & Hinv);
  (split; [rewrite E; apply addTransactions_extends | exact Hinv]).
Qed.

(** X19. The engine keeps its log ordered: from a log built by the store's
    two mutating methods (the empty log of a new engine is one), every
    cycle, with any upstream and any number of rounds, leaves a log whose
    transaction numbers are strictly increasing, without duplicates. *)
Theorem engine_keeps_log_ordered :
  forall (fuel : nat) (s : Service),
    builtByCalls (transactionStore s) ->
    strictlyIncreasing (numbers (transactionStore (snd (fst (cycle fuel s))))) /\
    NoDup (numbers (transactionStore (snd (fst (cycle fuel s))))).
Proof.
intros fuel s Hs.
pose proof (processTransactions_built handleFetchRequest handleFirstValidRequest
              fuel s Hs) as H.
apply builtByCalls_increasing in H. split; [exact H|].
apply strictlyIncreasing_NoDup, H.
Qed.

End EngineExtras.

(** ** The further properties on sample runs *)

Lemma processTransactions_schedules_when_running_witness :
  filter isSetTimeout
    (snd (processTransactions fetchScripted firstValidSecond 10
            (sampleService sampleScript)))
  = [SetTimeout 60000].
Proof.
destruct (processTransactions_schedules_when_running _ fetchScripted firstValidSecond
            10 (sampleService sampleScript)) as [H _]; [reflexivity | exact H].
Defined.

Lemma stop_and_start_scheduling_witness :
  filter isSetTimeout
    (snd (immediateCallback fetchScripted firstValidSecond 10
            (mkService sampleScript false sampleLog None 60)))
  = [SetTimeout 60000].
Proof.
destruct (stop_and_start_scheduling _ fetchScripted firstValidSecond 10
            (mkService sampleScript false sampleLog None 60)) as [_ H].
apply H. reflexivity.
Defined.

Lemma start_fetches_after_stored_tail_witness :
  firstFetchReference
    (snd (bind (@startPeriodicProcessing unit)
            (fun _ => immediateCallback fetchReorg firstValidNone 1)
            (mkService tt false [] (Some (sampleTransaction 9)) 60)))
  = Some (None, None).
Proof.
destruct (start_fetches_after_stored_tail _ fetchReorg firstValidNone 0
            (mkService tt false [] (Some (sampleTransaction 9)) 60)) as [_ H].
apply H. reflexivity.
Defined.

Lemma failed_first_fetch_ends_cycle_witness :
  fst (fst (processTransactions fetchServerError firstValidNone 4 (sampleService tt)))
  = Returned tt /\
  length (filter isFetch
            (snd (processTransactions fetchServerError firstValidNone 4
                    (sampleService tt)))) = 1%nat.
Proof.
apply (failed_first_fetch_ends_cycle _ fetchServerError firstValidNone 3
         (sampleService tt) (inr (mkResponse ServerError None)) tt).
- reflexivity.
- intros r E. injection E as <-. discriminate.
Defined.


Lemma error_status_is_ignored_witness :
  fst (processTransactions fetchServerError firstValidNone 1 (sampleService tt))
  = (Returned tt, sampleService tt).
Proof.
rewrite (error_status_is_ignored _ fetchServerError firstValidNone 0 (sampleService tt)
           (mkResponse ServerError None) tt eq_refl);
  [reflexivity | discriminate | reflexivity | discriminate].
Defined.

Lemma page_is_appended_and_followed_witness :
  exists s' events,
    fetchAndProcess fetchScripted firstValidSecond false false
      (sampleService sampleScript)
    = (Returned (false, true), s', events) /\
    transactionStore s' = map sampleTransaction [1; 2; 3; 4; 5; 6; 7] /\
    lastKnownTransaction s' = Some (sampleTransaction 7) /\
    lastKnownTransaction
      (snd (fst (fetchAndProcess fetchScripted firstValidSecond true false
                   (sampleService sampleScript))))
    = Some (sampleTransaction 6).
Proof.
destruct (page_is_appended_and_followed _ fetchScripted firstValidSecond 0 false
            (sampleService sampleScript)
            (mkResponse Succeeded
               (Some (TransactionsBody (map sampleTransaction [6; 7]) true)))
            [inr reorgSignal; page [8] true; page [9] false]
            (map sampleTransaction [6; 7]) true)
  as (s' & events & HB & _ & Hstore & Hlast & _ & _ & _ & HF);
  try reflexivity; [discriminate|].
exists s', events. split; [exact HB|]. split; [exact Hstore|]. split; [exact Hlast|].
rewrite HF. injection HB as <- <-. reflexivity.
Defined.

Lemma redelivered_page_is_noop_witness :
  exists events,
    fetchAndProcess fetchScripted firstValidSecond false false
      (sampleService [page [4; 5] false])
    = (Returned (false, false), sampleService [], events).
Proof.
destruct (redelivered_page_is_noop _ fetchScripted firstValidSecond false
            (sampleService [page [4; 5] false])
            (mkResponse Succeeded
               (Some (TransactionsBody (map sampleTransaction [4; 5]) false)))
            [] (map sampleTransaction [4; 5]) false (sampleTransaction 5))
  as (s' & events & -> & HB & _); try reflexivity.
- intros t [<-|[<-|[]]]; simpl; lia.
- exists events. exact HB.
Defined.


Lemma cycle_without_reorg_only_appends_witness :
  exists appended,
    transactionStore
      (snd (fst (processTransactions fetchScripted firstValidSecond 5
                   (sampleService [page [6; 7] true; page [8] false]))))
    = sampleLog ++ appended.
Proof.
destruct (cycle_without_reorg_only_appends _ fetchScripted firstValidSecond 5
            (sampleService [page [6; 7] true; page [8] false])) as [H _];
  [reflexivity | exact H].
Defined.

Lemma engine_keeps_log_ordered_witness :
  strictlyIncreasing
    (numbers (transactionStore
                (snd (fst (processTransactions fetchScripted firstValidSecond 10
                             (sampleService sampleScript)))))).
Proof.
destruct (engine_keeps_log_ordered _ fetchScripted firstValidSecond 10
            (sampleService sampleScript)) as [H _]; [|exact H].
exists (map CallAddTransaction sampleLog). reflexivity.
Defined.
